(** * Window dragging (src/shared/window-drag/main.ts)

    A shallow embedding of the window-drag controller of MusicFreeDesktop:

    - Strategy A, [makeWin32WindowFullyDraggable]: two window-message hooks
      ([WM_MOUSEMOVE], [WM_LBUTTONUP]) sharing the closure variables
      [dragging], [cachePosition] and [initialPos];
    - Strategy B, the [WindowDrag] class: a registry of windows, the
      "set-window-draggable" IPC handler installed by [setup], and
      [setWindowDraggable], which wraps the caller's [onDragEnd] in a
      300 ms trailing debounce.

    Numbers are JavaScript numbers holding integers far below 2^53 (16-bit
    pointer coordinates, screen coordinates), so they are modelled by [Z].
    Every handler is a function from the state before to an [Outcome]: the
    state after, the calls made to the outside ([setBounds], [onDragEnd]) in
    order, and whether the handler threw. The functions a caller supplies
    ([onDragEnd], [getWindowSize]) return and do not throw; [getWindowSize]
    reads the application state, which may change between two events. *)

From Stdlib Require Import ZArith List Bool String Strings.Byte Lia.
From Stdlib Require QArith Qcanon.
From stdpp Require Import base option list gmap.

Import ListNotations.

(** ** Plain value types *)

(** [ICommon.IPoint] *)
Module IPoint.
Record t : Type := mk { x : Z; y : Z }.
End IPoint.

(** [ICommon.ISize] *)
Module ISize.
Record t : Type := mk { width : Z; height : Z }.
End ISize.

(** The argument of [BrowserWindow.setBounds], also the shape of [initialPos]. *)
Module Rectangle.
Record t : Type := mk { x : Z; y : Z; height : Z; width : Z }.
End Rectangle.

(** Window handles and caller-supplied callbacks are identified by numbers. *)
Definition BrowserWindow : Type := nat.
Definition Callback : Type := nat.

(** What a handler does to the outside world. *)
Inductive Effect : Type :=
| SetBounds (window : BrowserWindow) (b : Rectangle.t)
| DragEnd (callback : Callback) (position : option IPoint.t).

Definition is_DragEnd (e : Effect) : bool :=
  match e with SetBounds _ _ => false | DragEnd _ _ => true end.

(** The [onDragEnd] calls among [es]. *)
Definition drag_ends (es : list Effect) : list Effect :=
  List.filter is_DragEnd es.

(** The result of running a handler. *)
Record Outcome (S : Type) : Type := mkOutcome {
  after : S;
  calls : list Effect;
  threw : bool;
}.
Arguments mkOutcome {S} _ _ _.
Arguments after {S} _.
Arguments calls {S} _.
Arguments threw {S} _.

Definition done {S : Type} (s : S) (es : list Effect) : Outcome S :=
  mkOutcome s es false.

(** An exception leaves the handler at once; [s] is the state reached so far. *)
Definition throw {S : Type} (s : S) : Outcome S :=
  mkOutcome s [] true.

(** ** Buffers *)

Definition Buffer : Type := list byte.

Definition byte_value (b : byte) : Z := Z.of_N (Byte.to_N b).

(** [buf.readInt16LE(offset)] of Node: the two bytes at [offset] and
    [offset + 1], least significant first, read as a two's complement 16-bit
    integer; a [RangeError] ([None]) when either byte is missing. *)
Definition readInt16LE (buf : Buffer) (offset : nat) : option Z :=
  match buf !! offset, buf !! S offset with
  | Some first, Some last =>
      let val := (byte_value first + byte_value last * 2 ^ 8)%Z in
      Some (if (2 ^ 15 <=? val)%Z then (val - 2 ^ 16)%Z else val)
  | _, _ => None
  end.

(** [buf.writeInt16LE(v, 0)] for a value in the 16-bit range, used to build
    message payloads. *)
Definition byte_of_Z (v : Z) : byte :=
  match Byte.of_N (Z.to_N (v mod 256)) with
  | Some b => b
  | None => Byte.x00
  end.

Definition int16LE (v : Z) : Buffer :=
  [byte_of_Z v; byte_of_Z ((v mod 2 ^ 16) / 256)].

(** ** Constants *)

Definition WM_MOUSEMOVE : Z := 0x0200.
Definition WM_LBUTTONUP : Z := 0x0202.
Definition MK_LBUTTON : Z := 0x0001.

(** The quiet period handed to [debounce] by [setWindowDraggable], in ms. *)
Definition DEBOUNCE_WAIT : nat := 300.

Section Controller.

(** The application state that a caller's [getWindowSize] reads (for
    instance its configuration); it may change between two events. *)
Context {App : Type}.

(** [IDragOptions]. [onDragEnd] is a required member of the interface. *)
Record IDragOptions : Type := mkOptions {
  width : Z;
  height : Z;
  getWindowSize : option (App -> ISize.t);
  onDragEnd : Callback;
}.

(** The size both strategies compute: [getWindowSize()] when the option is
    there, the registered [width]/[height] otherwise. *)
Definition resolveSize (opts : IDragOptions) (a : App) : ISize.t :=
  match getWindowSize opts with
  | Some f => f a
  | None => ISize.mk (width opts) (height opts)
  end.

(** ** Strategy A: [makeWin32WindowFullyDraggable] *)

(** The variables captured by the two hooks. *)
Record DragSession : Type := mkSession {
  dragging : bool;
  cachePosition : option IPoint.t;
  initialPos : Rectangle.t;
}.

(** The hooked window as the host sees it: its bounds, and the application
    state. [setBounds] replaces the bounds; [getPosition] reads their
    top-left corner. *)
Record Host : Type := mkHost {
  bounds : Rectangle.t;
  app : App;
}.

Definition getPosition (h : Host) : Z * Z :=
  (Rectangle.x (bounds h), Rectangle.y (bounds h)).

Definition setBounds (b : Rectangle.t) (h : Host) : Host :=
  mkHost b (app h).

Record Win32 : Type := mkWin32 {
  session : DragSession;
  host : Host;
}.

(** The closure state right after [makeWin32WindowFullyDraggable] returns. *)
Definition makeWin32WindowFullyDraggable (options : IDragOptions) : DragSession :=
  mkSession false None (Rectangle.mk 0 0 (height options) (width options)).

Section Hooks.

Variable browserWindow : BrowserWindow.
Variable options : IDragOptions.

(** The [WM_LBUTTONUP] hook. *)
Definition on_WM_LBUTTONUP (s : Win32) : Outcome Win32 :=
  let ses := session s in
  (* dragging = false *)
  let es :=
    match cachePosition ses with
    | Some p => [DragEnd (onDragEnd options) (Some p)]
    | None => []
    end in
  (* cachePosition = null *)
  done (mkWin32 (mkSession false None (initialPos ses)) (host s)) es.

(** Lines 59-86 of the [WM_MOUSEMOVE] hook: what a move with the button
    held does once the pointer [(x, y)] is decoded. *)
Definition drag (x y : Z) (s : Win32) : Outcome Win32 :=
  let ses := session s in
  if negb (dragging ses) then
    (* dragging = true *)
    let size := resolveSize options (app (host s)) in
    let initWidth := ISize.width size in
    let initHeight := ISize.height size in
    done (mkWin32
            (mkSession true (cachePosition ses)
               (Rectangle.mk x y initHeight initWidth))
            (host s)) []
  else
    let cache :=
      IPoint.mk
        (x + fst (getPosition (host s)) - Rectangle.x (initialPos ses))
        (y + snd (getPosition (host s)) - Rectangle.y (initialPos ses)) in
    let b :=
      Rectangle.mk (IPoint.x cache) (IPoint.y cache)
        (Rectangle.height (initialPos ses))
        (Rectangle.width (initialPos ses)) in
    done (mkWin32
            (mkSession (dragging ses) (Some cache) (initialPos ses))
            (setBounds b (host s)))
         [SetBounds browserWindow b].

(** The [WM_MOUSEMOVE] hook. The guard [if (!browserWindow) return] never
    fires: [browserWindow] is a constant object reference. *)
Definition on_WM_MOUSEMOVE (wParam lParam : Buffer) (s : Win32) : Outcome Win32 :=
  match readInt16LE wParam 0 with
  | None => throw s
  | Some wParamNumber =>
    if (Z.land wParamNumber MK_LBUTTON =? 0)%Z then done s []
    else
      match readInt16LE lParam 0 with
      | None => throw s
      | Some x =>
        match readInt16LE lParam 2 with
        | None => throw s
        | Some y => drag x y s
        end
      end
  end.

(** A native window message as the host hands it to the hooks. *)
Record WindowMessage : Type := mkMessage {
  message : Z;
  wParam : Buffer;
  lParam : Buffer;
}.

(** [hookWindowMessage]: only the two hooked message numbers reach a hook. *)
Definition deliver (m : WindowMessage) (s : Win32) : Outcome Win32 :=
  if (message m =? WM_LBUTTONUP)%Z then on_WM_LBUTTONUP s
  else if (message m =? WM_MOUSEMOVE)%Z then on_WM_MOUSEMOVE (wParam m) (lParam m) s
  else done s [].

(** What reaches a hooked window: native messages, and changes of the
    application state in between. *)
Inductive Win32Event : Type :=
| Message (m : WindowMessage)
| AppUpdate (a : App).

Definition step (e : Win32Event) (s : Win32) : Outcome Win32 :=
  match e with
  | Message m => deliver m s
  | AppUpdate a => done (mkWin32 (session s) (mkHost (bounds (host s)) a)) []
  end.

(** The event loop: one event is processed fully before the next. *)
Fixpoint run (es : list Win32Event) (s : Win32) : Outcome Win32 :=
  match es with
  | [] => done s []
  | e :: rest =>
      let o := step e s in
      let o' := run rest (after o) in
      mkOutcome (after o') (calls o ++ calls o') (threw o || threw o')
  end.

(** The window right after registration on win32. *)
Definition registered (h : Host) : Win32 :=
  mkWin32 (makeWin32WindowFullyDraggable options) h.

End Hooks.

(** ** Strategy B: the [WindowDrag] class *)

(** A function value that can sit in the [onDragEnd] member of an options
    object: a function of the caller, or a closure returned by [debounce],
    given by its index in the closure store. *)
Inductive Handler : Type :=
| Caller (cb : Callback)
| Closure (cell : nat).

(** Modelled from the spec: the [debounce] helper imported from
    "@/common/debounce", whose file is not among the sources. The spec gives
    it as a trailing-edge debounce without leading-edge call: a call does not
    run the wrapped function, it (re)starts a timer of [wait] ms that keeps
    the latest argument; when the timer runs out the wrapped function is
    called once with that argument. There is no cancellation. *)
Record Debounced : Type := mkDebounced {
  original : Handler;
  wait : nat;
  timer : option (nat * option IPoint.t);
}.

(** Modelled from the spec: [debounce(fn, wait, {leading: false, trailing:
    true})] returns a closure with no timer running. *)
Definition debounce (fn : Handler) (ms : nat) : Debounced :=
  mkDebounced fn ms None.

(** Modelled from the spec: a call of the debounced function at time [now]
    does not call [original]; it restarts the timer with the new argument. *)
Definition invoke (now : nat) (position : option IPoint.t) (d : Debounced) : Debounced :=
  mkDebounced (original d) (wait d) (Some (now + wait d, position)).



(** Modelled from the spec: at time [tau] the timer of the closure [i] is
    looked at. If it has run out it is cleared and the wrapped function is
    called with the argument kept: a function of the caller is a call to the
    outside; a debounced closure has its own timer restarted (an options
    object registered twice wraps a closure in a closure). *)
Definition fire (tau : nat) (acc : list Debounced * list Effect) (i : nat)
  : list Debounced * list Effect :=
  match fst acc !! i with
  | Some d =>
      match timer d with
      | Some (deadline, position) =>
          if deadline <=? tau then
            let ds := <[i := mkDebounced (original d) (wait d) None]> (fst acc) in
            match original d with
            | Caller cb => (ds, snd acc ++ [DragEnd cb position])
            | Closure j => (alter (invoke tau position) j ds, snd acc)
            end
          else acc
      | None => acc
      end
  | None => acc
  end.

(** The timers that have run out at the millisecond [tau] fire, in the order
    of their closures. *)
Definition tick (tau : nat) (acc : list Debounced * list Effect)
  : list Debounced * list Effect :=
  fold_left (fire tau) (seq 0 (length (fst acc))) acc.

(** The milliseconds [t - n], ..., [t] pass one after the other. *)
Fixpoint elapse (n : nat) (t : nat) (acc : list Debounced * list Effect)
  : list Debounced * list Effect :=
  let acc' := tick (t - n) acc in
  match n with
  | 0 => acc'
  | S n' => elapse n' t acc'
  end.

(** An options object that [setWindowDraggable] was handed off win32, as
    that call left it. [metadata] keeps the members the caller gave, its
    own [onDragEnd] among them; [debounced] is the closure that the
    [onDragEnd] member of the object holds now, by its index in the closure
    store. *)
Record ManagedWindow : Type := mkManaged {
  metadata : IDragOptions;
  debounced : nat;
}.

(** The controller and the part of the host it lives in. The values of
    [this.registeredWindows] are references to the callers' options
    objects: [references] gives, for each key of the map, the index of its
    object in [objects]. *)
Record WindowDrag : Type := mkWindowDrag {
  platform : string;                                   (* process.platform *)
  now : nat;                                           (* host clock, ms *)
  application : App;
  references : gmap BrowserWindow nat;
  objects : list ManagedWindow;                        (* the options objects *)
  closures : list Debounced;                           (* debounced closures and their timers *)
  closedListeners : gset BrowserWindow;                (* windows with the "closed" listener *)
  hooked : gmap BrowserWindow DragSession;             (* windows with the win32 hooks *)
}.

(** [this.registeredWindows] as [has] and [get] read it: every registered
    window with the object it is registered with, in the state the object
    is in now. *)
Definition registeredWindows (c : WindowDrag) : gmap BrowserWindow ManagedWindow :=
  omap (fun object => objects c !! object) (references c).

Definition with_registry (r : gmap BrowserWindow nat) (c : WindowDrag) : WindowDrag :=
  mkWindowDrag (platform c) (now c) (application c) r (objects c) (closures c)
    (closedListeners c) (hooked c).

Definition with_closures (ds : list Debounced) (c : WindowDrag) : WindowDrag :=
  mkWindowDrag (platform c) (now c) (application c) (references c) (objects c)
    ds (closedListeners c) (hooked c).

(** [new WindowDrag()] on a host whose clock shows [t]. *)
Definition initial (p : string) (t : nat) (a : App) : WindowDrag :=
  mkWindowDrag p t a ∅ [] [] ∅ ∅.

(** The listener of "set-window-draggable" installed by [setup]. [sender] is
    [BrowserWindow.fromWebContents(_evt.sender)], [None] for [null];
    [position] is the payload, [None] when it is [null] or [undefined], on
    which [position.x] raises a [TypeError]. The [onDragEnd] member of a
    registered object is a closure made by [setWindowDraggable], so
    [metadata.onDragEnd?.] always calls. *)
Definition on_set_window_draggable
    (sender : option BrowserWindow) (position : option IPoint.t)
    (c : WindowDrag) : Outcome WindowDrag :=
  match sender with
  | None => done c []
  | Some window =>
    match registeredWindows c !! window with
    | None => done c []
    | Some m =>
      let size := resolveSize (metadata m) (application c) in
      match position with
      | None => throw c
      | Some p =>
        let b :=
          Rectangle.mk (IPoint.x p) (IPoint.y p)
            (ISize.height size) (ISize.width size) in
        done (with_closures
                (alter (invoke (now c) (Some p)) (debounced m) (closures c)) c)
             [SetBounds window b]
      end
    end
  end.

(** The [options] argument of [setWindowDraggable]: an object the
    controller has not seen, given by its members, or an object that was
    handed to it before (off win32), given by its index in [objects]. On
    win32 the object is only read and the store stays empty, so there a
    call is given by the members of its object. An index that names no
    object of the store stands for no call: it leaves the state as it is. *)
Inductive Options : Type :=
| Literal (options : IDragOptions)
| Reference (object : nat).

(** [setWindowDraggable(window, options)]. Off win32 the [onDragEnd] member
    of the caller's object is overwritten by a closure that wraps what the
    member held, and the object itself goes into the registry: on an object
    handed in before, the new closure wraps the closure already there, and
    every window registered with the object sees the new one. *)
Definition setWindowDraggable
    (window : BrowserWindow) (options : Options) (c : WindowDrag) : WindowDrag :=
  if String.eqb (platform c) "win32" then
    match options with
    | Literal o =>
        mkWindowDrag (platform c) (now c) (application c) (references c)
          (objects c) (closures c) (closedListeners c)
          (<[window := makeWin32WindowFullyDraggable o]> (hooked c))
    | Reference object =>
        match objects c !! object with
        | Some m =>
            mkWindowDrag (platform c) (now c) (application c) (references c)
              (objects c) (closures c) (closedListeners c)
              (<[window := makeWin32WindowFullyDraggable (metadata m)]> (hooked c))
        | None => c
        end
    end
  else
    let cell := length (closures c) in
    match options with
    | Literal o =>
        let originalDragEnd := Caller (onDragEnd o) in
        mkWindowDrag (platform c) (now c) (application c)
          (<[window := length (objects c)]> (references c))
          (objects c ++ [mkManaged o cell])
          (closures c ++ [debounce originalDragEnd DEBOUNCE_WAIT])
          ({[window]} ∪ closedListeners c)
          (hooked c)
    | Reference object =>
        match objects c !! object with
        | Some m =>
            let originalDragEnd := Closure (debounced m) in
            mkWindowDrag (platform c) (now c) (application c)
              (<[window := object]> (references c))
              (<[object := mkManaged (metadata m) cell]> (objects c))
              (closures c ++ [debounce originalDragEnd DEBOUNCE_WAIT])
              ({[window]} ∪ closedListeners c)
              (hooked c)
        | None => c
        end
    end.

(** The "closed" notification of [window]. *)
Definition on_closed (window : BrowserWindow) (c : WindowDrag) : WindowDrag :=
  if decide (window ∈ closedListeners c) then
    with_registry (delete window (references c)) c
  else c.

(** The host clock reaches [t]: the timers that run out on the way fire. *)
Definition advance (t : nat) (c : WindowDrag) : Outcome WindowDrag :=
  let acc := elapse (t - now c) t (closures c, []) in
  done (mkWindowDrag (platform c) t (application c) (references c) (objects c)
          (fst acc) (closedListeners c) (hooked c))
       (snd acc).

Inductive Event : Type :=
| Ipc (sender : option BrowserWindow) (position : option IPoint.t)
| Closed (window : BrowserWindow)
| Register (window : BrowserWindow) (options : IDragOptions)
| RegisterAgain (window : BrowserWindow) (object : nat)
| AppChanged (a : App)
| Idle.

Definition dispatch (e : Event) (c : WindowDrag) : Outcome WindowDrag :=
  match e with
  | Ipc sender position => on_set_window_draggable sender position c
  | Closed window => done (on_closed window c) []
  | Register window options =>
      done (setWindowDraggable window (Literal options) c) []
  | RegisterAgain window object =>
      done (setWindowDraggable window (Reference object) c) []
  | AppChanged a =>
      done (mkWindowDrag (platform c) (now c) a (references c) (objects c)
              (closures c) (closedListeners c) (hooked c)) []
  | Idle => done c []
  end.

(** One turn of the event loop: [delay] ms after the previous event the
    timers that ran out meanwhile fire, then the event is handled. *)
Definition turn (delay : nat) (e : Event) (c : WindowDrag) : Outcome WindowDrag :=
  let o := advance (now c + delay) c in
  let o' := dispatch e (after o) in
  mkOutcome (after o') (calls o ++ calls o') (threw o').

Fixpoint play (es : list (nat * Event)) (c : WindowDrag) : Outcome WindowDrag :=
  match es with
  | [] => done c []
  | (delay, e) :: rest =>
      let o := turn delay e c in
      let o' := play rest (after o) in
      mkOutcome (after o') (calls o ++ calls o') (threw o || threw o')
  end.

End Controller.

(** ** Vocabulary of the statements *)

(** A signed 16-bit little-endian integer, as the spec words it: the
    two's complement reading of the word [lo + 256 * hi]. *)
Definition int16 (lo hi : byte) : Z :=
  ((byte_value lo + 256 * byte_value hi + 2 ^ 15) mod 2 ^ 16 - 2 ^ 15)%Z.

(** Is bit [0x0001] of the button-state word set? *)
Definition button_held (wParam : Buffer) : bool :=
  match readInt16LE wParam 0 with
  | Some v => negb (Z.land v MK_LBUTTON =? 0)%Z
  | None => false
  end.

(** The pointer coordinates carried by [lParam]. *)
Definition pointer (lParam : Buffer) : option (Z * Z) :=
  match readInt16LE lParam 0, readInt16LE lParam 2 with
  | Some x, Some y => Some (x, y)
  | _, _ => None
  end.

(** The 8-byte buffers the host passes for a move at [(x, y)] with the
    button-state word [buttons], each value in the 16-bit range. *)
Definition padding : Buffer := [x00; x00; x00; x00].

Definition move_message (buttons x y : Z) : WindowMessage :=
  mkMessage WM_MOUSEMOVE
    (int16LE buttons ++ [x00; x00] ++ padding)
    (int16LE x ++ int16LE y ++ padding).

Definition release_message : WindowMessage :=
  mkMessage WM_LBUTTONUP (int16LE 0 ++ [x00; x00] ++ padding)
    (int16LE 0 ++ int16LE 0 ++ padding).

(** The position property 1 of the spec asks [onDragEnd] to receive: the
    last move's delta applied to the window's position at drag-start. *)
Definition claimed_drag_end (start origin last : Z * Z) : IPoint.t :=
  IPoint.mk (fst start + (fst last - fst origin))
            (snd start + (snd last - snd origin)).

(** The sum of the deltas of the moves [ps] with respect to [origin]. *)
Fixpoint travel (origin : Z * Z) (ps : list (Z * Z)) : Z * Z :=
  match ps with
  | [] => (0, 0)%Z
  | p :: rest =>
      (fst p - fst origin + fst (travel origin rest),
       snd p - snd origin + snd (travel origin rest))%Z
  end.

Section Vocabulary.

Context {App : Type}.

Definition is_release (e : @Win32Event App) : bool :=
  match e with
  | Message m => (message m =? WM_LBUTTONUP)%Z
  | AppUpdate _ => false
  end.

(** The pointer of a qualifying move: a [WM_MOUSEMOVE] whose button bit is
    set and whose coordinates decode. *)
Definition pointer_of (e : @Win32Event App) : option (Z * Z) :=
  match e with
  | Message m =>
      if (message m =? WM_MOUSEMOVE)%Z && button_held (wParam m)
      then pointer (lParam m) else None
  | AppUpdate _ => None
  end.

Definition qualifying (e : @Win32Event App) : bool :=
  match pointer_of e with Some _ => true | None => false end.

(** The number of qualifying moves since the last release, or since
    registration when there was no release. *)
Definition tally (n : nat) (e : @Win32Event App) : nat :=
  if is_release e then 0
  else if qualifying e then S n else n.

Definition since_release (es : list (@Win32Event App)) : nat :=
  fold_left tally es 0.

Definition no_release (es : list (@Win32Event App)) : bool :=
  forallb (fun e => negb (is_release e)) es.

Definition all_qualifying (es : list (@Win32Event App)) : bool :=
  forallb qualifying es.

(** The closure variables agree with [n] qualifying moves since the last
    release: [dragging] from the first on, [cachePosition] from the second. *)
Definition tracks (n : nat) (s : @Win32 App) : Prop :=
  (dragging (session s) = true <-> 1 <= n) /\
  (cachePosition (session s) <> None <-> 2 <= n).

(** The drag origin held in [initialPos]. *)
Definition origin (s : @Win32 App) : Z * Z :=
  (Rectangle.x (initialPos (session s)), Rectangle.y (initialPos (session s))).

(** The size held in [initialPos]. *)
Definition captured (s : @Win32 App) : ISize.t :=
  ISize.mk (Rectangle.width (initialPos (session s)))
           (Rectangle.height (initialPos (session s))).

Definition sized (size : ISize.t) (e : Effect) : Prop :=
  match e with
  | SetBounds _ b =>
      Rectangle.width b = ISize.width size /\
      Rectangle.height b = ISize.height size
  | DragEnd _ _ => True
  end.

Definition with_position (e : Effect) : Prop :=
  match e with
  | DragEnd _ None => False
  | _ => True
  end.

(** Events as the host builds them: a move at [p] with the primary button
    held, a move with no button held, a release. *)
Definition held_move (p : Z * Z) : @Win32Event App :=
  Message (move_message MK_LBUTTON (fst p) (snd p)).

Definition free_move (p : Z * Z) : @Win32Event App :=
  Message (move_message 0 (fst p) (snd p)).

Definition button_up : @Win32Event App := Message release_message.

(** Property 1 of the spec on the drag that starts at [start], moves
    through [moves] and ends at [last]: one [onDragEnd] call, with the last
    move's delta applied to the window's position at drag-start. *)
Definition claimed_release_report
    (w : BrowserWindow) (options : @IDragOptions App) (h : @Host App)
    (start : Z * Z) (moves : list (Z * Z)) (last : Z * Z) : Prop :=
  drag_ends
    (calls (run w options
              (held_move start :: (held_move <$> moves) ++ [held_move last; button_up])
              (registered options h))) =
  [DragEnd (onDragEnd options)
     (Some (claimed_drag_end (getPosition h) start last))].

(** *** Strategy B *)







(** The closures of [ds'] are those of [ds], timers apart. *)
Definition same_functions (ds ds' : list Debounced) : Prop :=
  length ds' = length ds /\
  forall i d, ds !! i = Some d ->
    exists d', ds' !! i = Some d' /\ original d' = original d /\ wait d' = wait d.









End Vocabulary.

(** ** Sample inputs *)

(** The application state of the samples is the size its [getWindowSize]
    returns. *)
Definition sample_options : @IDragOptions ISize.t :=
  mkOptions 300 200 None 7.

Definition sample_options_sized : @IDragOptions ISize.t :=
  mkOptions 300 200 (Some (fun a => a)) 7.

(** A window at (100, 100). *)
Definition sample_host : @Host ISize.t :=
  mkHost (Rectangle.mk 100 100 200 300) (ISize.mk 640 480).

(** A controller off win32 with window 1 registered. *)
Definition sample_controller : @WindowDrag ISize.t :=
  after (play [(0, Register 1 sample_options_sized)]
           (initial "linux" 0 (ISize.mk 640 480))).


(** The options object of window 1 is handed in a second time, for window
    1 again and for window 2. *)
Definition sample_nested : @WindowDrag ISize.t :=
  after (play [(0, RegisterAgain 1 0)] sample_controller).

Definition sample_shared : @WindowDrag ISize.t :=
  after (play [(0, RegisterAgain 2 0)] sample_controller).


(** ** Vocabulary of the further properties *)

Definition in_int16 (v : Z) : Prop := (- 2 ^ 15 <= v < 2 ^ 15)%Z.

(** A [setBounds] call that puts the window less than [2 ^ 16] away from
    [from] on each axis. *)
Definition within_reach (from : Z * Z) (e : Effect) : Prop :=
  match e with
  | SetBounds _ b =>
      (Z.abs (Rectangle.x b - fst from) < 2 ^ 16)%Z /\
      (Z.abs (Rectangle.y b - snd from) < 2 ^ 16)%Z
  | DragEnd _ _ => True
  end.

(** Every [onDragEnd] call of [es] comes right after a [setBounds] call and
    carries the top-left corner that call was given; [prev] is the call made
    before [es]. *)
Fixpoint reported_after_put (prev : option Effect) (es : list Effect) : Prop :=
  match es with
  | [] => True
  | e :: rest =>
      match e with
      | DragEnd _ position =>
          match prev with
          | Some (SetBounds _ b) =>
              position = Some (IPoint.mk (Rectangle.x b) (Rectangle.y b))
          | _ => False
          end
      | SetBounds _ _ => True
      end /\ reported_after_put (Some e) rest
  end.

Section FurtherVocabulary.

Context {App : Type}.

(** The messages on which a hook throws: a [WM_MOUSEMOVE] whose [wParam] has
    no 16-bit word at offset 0, or whose button bit is set while [lParam]
    has fewer than the four bytes of the two coordinates. *)
Definition faulty (e : @Win32Event App) : bool :=
  match e with
  | Message m =>
      (message m =? WM_MOUSEMOVE)%Z &&
      ((length (wParam m) <? 2) ||
       (button_held (wParam m) && (length (lParam m) <? 4)))
  | AppUpdate _ => false
  end.

Definition never_held (es : list (@Win32Event App)) : bool :=
  forallb (fun e => negb (qualifying e)) es.

(** The "set-window-draggable" messages on which the listener throws: the
    window is registered and the payload is [null] or [undefined]. *)
Definition malformed_request
    (sender : option BrowserWindow) (position : option IPoint.t)
    (c : @WindowDrag App) : bool :=
  match sender, position with
  | Some w, None =>
      match registeredWindows c !! w with Some _ => true | None => false end
  | _, _ => false
  end.

(** The function of a caller that [fn] calls in the end, through at most
    [fuel] closures wrapped in one another. *)
Fixpoint calls_in_the_end (fuel : nat) (ds : list Debounced) (fn : Handler)
  : option Callback :=
  match fn with
  | Caller cb => Some cb
  | Closure j =>
      match fuel with
      | 0 => None
      | S fuel' =>
          match ds !! j with
          | Some d => calls_in_the_end fuel' ds (original d)
          | None => None
          end
      end
  end.

(** What the registry and the stores always satisfy: a registered window has
    the "closed" listener and its object is in the store; the closure of an
    object is in the closure store and calls, in the end, the [onDragEnd]
    the caller gave the object; a closure waits [DEBOUNCE_WAIT] ms and wraps
    a function of a caller or a closure made before it. *)
Definition well_formed (c : @WindowDrag App) : Prop :=
  (forall w object,
     references c !! w = Some object ->
     w ∈ closedListeners c /\ is_Some (objects c !! object)) /\
  (forall object m,
     objects c !! object = Some m ->
     debounced m < length (closures c) /\
     calls_in_the_end (length (closures c)) (closures c) (Closure (debounced m)) =
       Some (onDragEnd (metadata m))) /\
  (forall i d,
     closures c !! i = Some d ->
     wait d = DEBOUNCE_WAIT /\
     match original d with
     | Caller _ => True
     | Closure j => j < i
     end).

(** The object that [setWindowDraggable] works on: its index in the store
    (the next free one for a new object), the members the caller gave it,
    and what its [onDragEnd] member holds when the call begins. *)
Definition handed (options : @Options App) (c : @WindowDrag App)
  : option (nat * @IDragOptions App * Handler) :=
  match options with
  | Literal o => Some (length (objects c), o, Caller (onDragEnd o))
  | Reference object =>
      match objects c !! object with
      | Some m => Some (object, metadata m, Closure (debounced m))
      | None => None
      end
  end.

(** What [cachePosition] holds is what the last call, a [setBounds], was
    given. *)
Definition cache_was_put (prev : option Effect) (s : @Win32 App) : Prop :=
  forall p, cachePosition (session s) = Some p ->
    exists w b, prev = Some (SetBounds w b) /\
                p = IPoint.mk (Rectangle.x b) (Rectangle.y b).

(** While [cachePosition] is non-null a drag is going on and the window is
    where [cachePosition] says, with the size held in [initialPos]. *)
Definition cache_is_window (s : @Win32 App) : Prop :=
  forall p, cachePosition (session s) = Some p ->
    dragging (session s) = true /\
    bounds (host s) =
      Rectangle.mk (IPoint.x p) (IPoint.y p)
        (Rectangle.height (initialPos (session s)))
        (Rectangle.width (initialPos (session s))).

(** The drag origin is a pair of 16-bit coordinates. *)
Definition origin_in_range (s : @Win32 App) : Prop :=
  in_int16 (fst (origin s)) /\ in_int16 (snd (origin s)).

End FurtherVocabulary.

(** ** The playback controls (src/renderer/components/MusicBar/widgets/Extra/index.tsx) *)

(** The volume and the speed are JavaScript numbers that the click handlers
    only compare, with each other and with the literals 0 and 1. Two finite
    numbers are equal under [===] exactly when their values are, so a number
    is modelled by its (rational) value; [NaN] is not a volume or a speed. *)
Definition number : Type := Qcanon.Qc.

Definition zero : number := Qcanon.Q2Qc (QArith_base.Qmake 0 1).
Definition one : number := Qcanon.Q2Qc (QArith_base.Qmake 1 1).

(** What a click does: the value it hands to [trackPlayer.setVolume] or
    [trackPlayer.setSpeed], and what it leaves in the ref. *)
Record Click : Type := mkClick {
  requested : number;
  remembered : option number;
}.

(** [onClick] of [VolumeBtn]. [volume] is [useVolume()] at the render the
    handler belongs to, [tmpVolumeRef] the content of the ref, [None] for
    [null]. *)
Definition VolumeBtn_onClick (volume : number) (tmpVolumeRef : option number) : Click :=
  let current :=
    match tmpVolumeRef with
    | None => zero
    | Some v => v
    end in
  let current :=
    if decide (current = volume)
    then (if decide (volume = zero) then one else zero)
    else current in
  (* trackPlayer.setVolume(current); tmpVolumeRef.current = volume *)
  mkClick current (Some volume).

(** [onClick] of [SpeedBtn]. *)
Definition SpeedBtn_onClick (speed : number) (tmpSpeedRef : option number) : Click :=
  let current :=
    match tmpSpeedRef with
    | None => one
    | Some v => if decide (v = speed) then one else v
    end in
  (* trackPlayer.setSpeed(current); tmpSpeedRef.current = speed *)
  mkClick current (Some speed).

(** * Buffers *)

Lemma byte_value_range (b : byte) : (0 <= byte_value b < 256)%Z.
Proof.
  unfold byte_value. pose proof (Byte.to_N_bounded b). lia.
Qed.

Lemma byte_value_of_Z (v : Z) : byte_value (byte_of_Z v) = (v mod 256)%Z.
Proof.
  unfold byte_value, byte_of_Z.
  assert (Hr : (0 <= v mod 256 < 256)%Z) by (apply Z.mod_pos_bound; lia).
  destruct (Byte.of_N (Z.to_N (v mod 256))) as [b|] eqn:E.
  - apply Byte.to_of_N in E. rewrite E. lia.
  - apply Byte.of_N_None_iff in E. lia.
Qed.

Lemma readInt16LE_head (lo hi : byte) (rest : Buffer) :
  readInt16LE (lo :: hi :: rest) 0 = Some (int16 lo hi).
Proof.
  unfold readInt16LE, int16. cbn [lookup list_lookup].
  pose proof (byte_value_range lo). pose proof (byte_value_range hi).
  f_equal. destruct (Z.leb_spec (2 ^ 15) (byte_value lo + byte_value hi * 2 ^ 8));
    Z.div_mod_to_equations; lia.
Qed.

Lemma readInt16LE_skip (a b : byte) (rest : Buffer) (n : nat) :
  readInt16LE (a :: b :: rest) (S (S n)) = readInt16LE rest n.
Proof. reflexivity. Qed.

Lemma int16_range (lo hi : byte) : (- 2 ^ 15 <= int16 lo hi < 2 ^ 15)%Z.
Proof. unfold int16. Z.div_mod_to_equations. lia. Qed.

(** Writing a 16-bit value and reading it back. *)
Lemma int16_int16LE (v : Z) (rest : Buffer) :
  (- 2 ^ 15 <= v < 2 ^ 15)%Z ->
  readInt16LE (int16LE v ++ rest) 0 = Some v.
Proof.
  intros Hv. unfold int16LE. rewrite <- !app_comm_cons, app_nil_l, readInt16LE_head.
  unfold int16. rewrite !byte_value_of_Z. f_equal.
  Z.div_mod_to_equations. lia.
Qed.

(** Bit [0x0001] of the word read is bit 0 of its first byte. *)
Lemma land_int16 (lo hi : byte) :
  (Z.land (int16 lo hi) MK_LBUTTON =? 0)%Z = negb (Z.testbit (byte_value lo) 0).
Proof.
  unfold MK_LBUTTON. change 1%Z with (Z.ones 1).
  rewrite Z.land_ones by lia. rewrite Z.bit0_odd.
  pose proof (byte_value_range lo). pose proof (byte_value_range hi).
  unfold int16.
  rewrite (Zodd_mod (byte_value lo)).
  destruct (Z.eqb_spec (byte_value lo mod 2) 1) as [E|E];
    [ apply Z.eqb_neq | apply Z.eqb_eq ]; cbn [negb];
    Z.div_mod_to_equations; lia.
Qed.

(** * Strategy A *)

Section Win32Facts.

Context {App : Type}.
Variable browserWindow : BrowserWindow.
Variable options : @IDragOptions App.

(** The origin-establishing move. *)
Lemma drag_first x y (s : @Win32 App) :
  dragging (session s) = false ->
  drag browserWindow options x y s =
    done (mkWin32
            (mkSession true (cachePosition (session s))
               (Rectangle.mk x y
                  (ISize.height (resolveSize options (app (host s))))
                  (ISize.width (resolveSize options (app (host s))))))
            (host s)) [].
Proof. intros H. unfold drag. rewrite H. reflexivity. Qed.

(** A later move of the session. *)
Lemma drag_next x y (s : @Win32 App) :
  dragging (session s) = true ->
  drag browserWindow options x y s =
    let b :=
      Rectangle.mk (x + fst (getPosition (host s)) - fst (origin s))
                   (y + snd (getPosition (host s)) - snd (origin s))
                   (ISize.height (captured s)) (ISize.width (captured s)) in
    done (mkWin32
            (mkSession true (Some (IPoint.mk (Rectangle.x b) (Rectangle.y b)))
               (initialPos (session s)))
            (setBounds b (host s)))
         [SetBounds browserWindow b].
Proof. intros H. unfold drag. rewrite H. reflexivity. Qed.

(** Every event is a release, a qualifying move, or leaves the closure
    variables and the window where they are. *)
Lemma step_cases (e : @Win32Event App) (s : Win32) :
  (is_release e = true /\ step browserWindow options e s = on_WM_LBUTTONUP options s) \/
  (exists x y, is_release e = false /\ pointer_of e = Some (x, y) /\
               step browserWindow options e s = drag browserWindow options x y s) \/
  (is_release e = false /\ pointer_of e = None /\
   session (after (step browserWindow options e s)) = session s /\
   bounds (host (after (step browserWindow options e s))) = bounds (host s) /\
   calls (step browserWindow options e s) = []).
Proof.
  destruct e as [m|a]; [|right; right; cbn; auto].
  cbn [step is_release pointer_of]. unfold deliver.
  destruct (message m =? WM_LBUTTONUP)%Z eqn:Eup; [left; auto|right].
  destruct (message m =? WM_MOUSEMOVE)%Z eqn:Emv; cbn [andb];
    [|right; cbn; auto].
  unfold on_WM_MOUSEMOVE, button_held, pointer.
  destruct (readInt16LE (wParam m) 0) as [v|]; [|right; cbn; auto].
  destruct (Z.land v MK_LBUTTON =? 0)%Z; cbn [negb]; [right; cbn; auto|].
  destruct (readInt16LE (lParam m) 0) as [x|]; [|right; cbn; auto].
  destruct (readInt16LE (lParam m) 2) as [y|]; [|right; cbn; auto].
  left. exists x, y. auto.
Qed.

(** C6 : coordinate decoding. The [WM_MOUSEMOVE] hook reads the pointer as
    two signed 16-bit little-endian integers, x from bytes 0-1 and y from
    bytes 2-3 of [lParam], and whether it repositions at all depends on
    [wParam] only through bit [0x0001] of the signed 16-bit little-endian
    word at its offset 0, which is bit 0 of its first byte. *)
Theorem coordinate_decoding
    (w0 w1 l0 l1 l2 l3 : byte) (wrest lrest : Buffer) (s : @Win32 App) :
  on_WM_MOUSEMOVE browserWindow options
      (w0 :: w1 :: wrest) (l0 :: l1 :: l2 :: l3 :: lrest) s =
    if Z.testbit (byte_value w0) 0
    then drag browserWindow options (int16 l0 l1) (int16 l2 l3) s
    else done s [].
Proof.
  unfold on_WM_MOUSEMOVE.
  rewrite (readInt16LE_head w0 w1 wrest), land_int16.
  destruct (Z.testbit (byte_value w0) 0); cbn [negb]; [|reflexivity].
  rewrite (readInt16LE_head l0 l1), (readInt16LE_skip l0 l1 _ 0),
    (readInt16LE_head l2 l3).
  reflexivity.
Qed.

Lemma move_not_held (wP lP : Buffer) (v : Z) (s : @Win32 App) :
  readInt16LE wP 0 = Some v ->
  Z.land v MK_LBUTTON = 0%Z ->
  on_WM_MOUSEMOVE browserWindow options wP lP s = done s [].
Proof. intros Hv Hb. unfold on_WM_MOUSEMOVE. rewrite Hv, Hb. reflexivity. Qed.

#[local] Abbreviation step := (step browserWindow options).
#[local] Abbreviation run := (run browserWindow options).
#[local] Abbreviation drag := (drag browserWindow options).
#[local] Abbreviation on_WM_LBUTTONUP := (on_WM_LBUTTONUP options).
#[local] Abbreviation on_WM_MOUSEMOVE := (on_WM_MOUSEMOVE browserWindow options).

Lemma run_cons e es (s : @Win32 App) :
  run (e :: es) s =
    mkOutcome (after (run es (after (step e s))))
      (calls (step e s) ++ calls (run es (after (step e s))))
      (threw (step e s) || threw (run es (after (step e s)))).
Proof. reflexivity. Qed.

Lemma after_run_app es1 es2 (s : @Win32 App) :
  after (run (es1 ++ es2) s) = after (run es2 (after (run es1 s))).
Proof.
  revert s. induction es1 as [|e es1 IH]; intros s; [reflexivity|].
  rewrite <- app_comm_cons, !run_cons. cbn [after]. apply IH.
Qed.

Lemma calls_run_app es1 es2 (s : @Win32 App) :
  calls (run (es1 ++ es2) s) =
    calls (run es1 s) ++ calls (run es2 (after (run es1 s))).
Proof.
  revert s. induction es1 as [|e es1 IH]; intros s; [reflexivity|].
  rewrite <- app_comm_cons, !run_cons. cbn [after calls].
  rewrite IH. apply app_assoc.
Qed.

Lemma threw_run_app es1 es2 (s : @Win32 App) :
  threw (run (es1 ++ es2) s) =
    threw (run es1 s) || threw (run es2 (after (run es1 s))).
Proof.
  revert s. induction es1 as [|e es1 IH]; intros s; [reflexivity|].
  rewrite <- app_comm_cons, !run_cons. cbn [after threw].
  rewrite IH. apply orb_assoc.
Qed.

Lemma outcome_eq {S : Type} (o o' : Outcome S) :
  after o = after o' -> calls o = calls o' -> threw o = threw o' -> o = o'.
Proof. destruct o, o'. cbn. intros; subst; reflexivity. Qed.

Lemma tracks_step n e (s : @Win32 App) :
  tracks n s -> tracks (tally n e) (after (step e s)).
Proof.
  unfold tracks, tally. intros [Hd Hc].
  destruct (step_cases e s) as [[Hr Hs]|[(x & y & Hr & Hp & Hs)|(Hr & Hp & Hs & _)]];
    rewrite Hr; unfold qualifying.
  - rewrite Hs. cbn. split; split; first [congruence | lia].
  - rewrite Hp, Hs.
    destruct (dragging (session s)) eqn:Ed;
      [rewrite (drag_next x y s Ed) | rewrite (drag_first x y s Ed)]; cbn.
    + split; split; first [congruence | lia].
    + assert (n = 0) by (destruct n; [reflexivity|]; assert (false = true) by (apply Hd; lia); discriminate).
      subst n. split; [split; [lia|reflexivity]|].
      split; [intros Hne; apply Hc in Hne; lia | lia].
  - rewrite Hp, Hs. tauto.
Qed.

Lemma tracks_run es n (s : @Win32 App) :
  tracks n s -> tracks (fold_left tally es n) (after (run es s)).
Proof.
  revert n s. induction es as [|e es IH]; intros n s H; [exact H|].
  rewrite run_cons. cbn [after fold_left]. apply IH, tracks_step, H.
Qed.

Lemma tracks_registered (h : @Host App) : tracks 0 (registered options h).
Proof. unfold tracks. cbn. split; split; first [congruence | lia]. Qed.

Lemma tracks_since_release es (h : @Host App) :
  tracks (since_release es) (after (run es (registered options h))).
Proof. apply tracks_run, tracks_registered. Qed.

Lemma tracks_idle (s : @Win32 App) :
  tracks 0 s -> dragging (session s) = false /\ cachePosition (session s) = None.
Proof.
  intros [Hd Hc]. split.
  - destruct (dragging (session s)); [|reflexivity].
    assert (1 <= 0) by (apply Hd; reflexivity). lia.
  - destruct (cachePosition (session s)) eqn:E; [|reflexivity].
    assert (2 <= 0) by (apply Hc; congruence). lia.
Qed.

Lemma qualifying_not_release (e : @Win32Event App) :
  qualifying e = true -> is_release e = false.
Proof.
  unfold qualifying. destruct e as [m|a]; cbn; [|reflexivity].
  destruct (Z.eqb_spec (message m) WM_MOUSEMOVE) as [E|E]; cbn; [|discriminate].
  intros _. rewrite E. reflexivity.
Qed.

Lemma all_qualifying_no_release (es : list (@Win32Event App)) :
  all_qualifying es = true -> no_release es = true.
Proof.
  unfold all_qualifying, no_release. induction es as [|e es IH]; cbn; [reflexivity|].
  intros H. apply andb_prop in H as [He Hes].
  rewrite (qualifying_not_release e He), IH by assumption. reflexivity.
Qed.

(** Between the origin and the release the hooks keep [dragging] and
    [initialPos], give every [setBounds] the captured size, and never call
    [onDragEnd]. *)
Lemma session_stays es (s : @Win32 App) :
  dragging (session s) = true ->
  no_release es = true ->
  dragging (session (after (run es s))) = true /\
  initialPos (session (after (run es s))) = initialPos (session s) /\
  Forall (sized (captured s)) (calls (run es s)) /\
  drag_ends (calls (run es s)) = [].
Proof.
  revert s. induction es as [|e es IH]; intros s Hd Hn.
  { cbn. repeat split; auto. }
  cbn in Hn. apply andb_prop in Hn as [He Hes]. apply negb_true_iff in He.
  rewrite run_cons. cbn [after calls].
  assert (Hstep : dragging (session (after (step e s))) = true /\
                  initialPos (session (after (step e s))) = initialPos (session s) /\
                  Forall (sized (captured s)) (calls (step e s)) /\
                  drag_ends (calls (step e s)) = []).
  { destruct (step_cases e s) as [[Hr _]|[(x & y & _ & _ & Hs)|(_ & _ & Hs & _ & Hc)]].
    - congruence.
    - rewrite Hs, (drag_next x y s Hd). cbn. repeat split; auto.
      repeat constructor.
    - rewrite Hs, Hc. repeat split; auto. }
  destruct Hstep as (Hd1 & Hi1 & Hz1 & He1).
  destruct (IH (after (step e s)) Hd1 Hes) as (Hd2 & Hi2 & Hz2 & He2).
  assert (Hcap : captured (after (step e s)) = captured s)
    by (unfold captured; rewrite Hi1; reflexivity).
  rewrite Hcap in Hz2.
  repeat split.
  - exact Hd2.
  - congruence.
  - apply Forall_app; split; assumption.
  - unfold drag_ends in *. rewrite List.filter_app, He1, He2. reflexivity.
Qed.

(** A run of qualifying moves inside a session: the window travels by the
    sum of the deltas, and [cachePosition] is the top-left corner it was
    last given. *)
Lemma drag_moves es (s : @Win32 App) :
  dragging (session s) = true ->
  all_qualifying es = true ->
  let s' := after (run es s) in
  fst (getPosition (host s')) =
    (fst (getPosition (host s)) + fst (travel (origin s) (omap pointer_of es)))%Z /\
  snd (getPosition (host s')) =
    (snd (getPosition (host s)) + snd (travel (origin s) (omap pointer_of es)))%Z /\
  (es <> [] ->
   cachePosition (session s') =
     Some (IPoint.mk (fst (getPosition (host s'))) (snd (getPosition (host s'))))).
Proof.
  revert s. induction es as [|e es IH]; intros s Hd Hq.
  { cbn. repeat split; try lia. congruence. }
  cbn in Hq. apply andb_prop in Hq as [He Hes].
  unfold qualifying in He. destruct (pointer_of e) as [[x y]|] eqn:Hp; [|discriminate].
  destruct (step_cases e s) as [[Hr _]|[(x' & y' & _ & Hp' & Hs)|(_ & Hp' & _)]];
    [ pose proof (qualifying_not_release e) as Q; unfold qualifying in Q;
      rewrite Hp in Q; specialize (Q eq_refl); congruence | | congruence ].
  rewrite Hp in Hp'. injection Hp' as <- <-.
  rewrite (drag_next x y s Hd) in Hs.
  rewrite run_cons. cbn [after]. cbn [omap list_omap]. rewrite Hp.
  cbn [travel fst snd].
  set (s1 := after (step e s)) in *.
  assert (Hd1 : dragging (session s1) = true) by (subst s1; rewrite Hs; reflexivity).
  assert (Ho1 : origin s1 = origin s) by (subst s1; rewrite Hs; reflexivity).
  assert (Hx1 : fst (getPosition (host s1)) =
                (x + fst (getPosition (host s)) - fst (origin s))%Z)
    by (subst s1; rewrite Hs; reflexivity).
  assert (Hy1 : snd (getPosition (host s1)) =
                (y + snd (getPosition (host s)) - snd (origin s))%Z)
    by (subst s1; rewrite Hs; reflexivity).
  assert (Hc1 : cachePosition (session s1) =
                Some (IPoint.mk (fst (getPosition (host s1))) (snd (getPosition (host s1)))))
    by (subst s1; rewrite Hs; reflexivity).
  destruct (IH s1 Hd1 Hes) as (Hx & Hy & Hc). rewrite Ho1 in Hx, Hy.
  cbv zeta. repeat split.
  - rewrite Hx, Hx1. lia.
  - rewrite Hy, Hy1. lia.
  - intros _. destruct es as [|e' es']; [exact Hc1|]. apply Hc. discriminate.
Qed.

Lemma step_release e (s : @Win32 App) :
  is_release e = true -> step e s = on_WM_LBUTTONUP s.
Proof.
  intros H.
  destruct (step_cases e s) as [[_ Hs]|[(x & y & Hr & _)|(Hr & _)]];
    congruence.
Qed.

Lemma step_qualifying e x y (s : @Win32 App) :
  pointer_of e = Some (x, y) -> step e s = drag x y s.
Proof.
  intros H.
  assert (Hq : is_release e = false)
    by (apply qualifying_not_release; unfold qualifying; rewrite H; reflexivity).
  destruct (step_cases e s) as [[Hr _]|[(x' & y' & _ & Hp & Hs)|(_ & Hp & _)]];
    congruence.
Qed.

Lemma since_release_app es es' :
  since_release (es ++ es') = fold_left tally es' (@since_release App es).
Proof. unfold since_release. apply fold_left_app. Qed.

(** A release resets the count, a qualifying move adds one to it. *)
Lemma since_release_release es e :
  is_release e = true -> @since_release App (es ++ [e]) = 0.
Proof. intros H. rewrite since_release_app. cbn. unfold tally. rewrite H. reflexivity. Qed.

Lemma since_release_move es e :
  qualifying e = true ->
  @since_release App (es ++ [e]) = S (since_release es).
Proof.
  intros H. rewrite since_release_app. cbn. unfold tally.
  rewrite (qualifying_not_release e H), H. reflexivity.
Qed.

(** C3 : DragSession invariant. After every event of any sequence delivered
    to a window registered on win32, [dragging] is true exactly when a
    qualifying move was processed since the last release (or since
    registration), and [cachePosition] is non-null exactly when at least two
    were, the origin-establishing one and a later one; so [cachePosition] is
    non-null only while [dragging] is true. *)
Theorem drag_session_invariant (h : @Host App) (es : list Win32Event) :
  let s := session (after (run es (registered options h))) in
  (dragging s = true <-> 1 <= since_release es) /\
  (cachePosition s <> None <-> 2 <= since_release es) /\
  (cachePosition s <> None -> dragging s = true).
Proof.
  destruct (tracks_since_release es h) as [Hd Hc].
  cbv zeta. repeat split; try apply Hd; try apply Hc.
  intros Hne. apply Hd. apply Hc in Hne. lia.
Qed.

(** C10 : [onDragEnd] never receives null under Strategy A: whatever the
    state and the events, every [onDragEnd] call made by the hooks carries a
    position. *)
Theorem drag_end_never_null (es : list Win32Event) (s : @Win32 App) :
  Forall with_position (calls (run es s)).
Proof.
  revert s. induction es as [|e es IH]; intros s; [constructor|].
  rewrite run_cons. cbn [calls]. apply Forall_app. split; [|apply IH].
  destruct (step_cases e s) as [[_ Hs]|[(x & y & _ & _ & Hs)|(_ & _ & _ & _ & Hc)]].
  - rewrite Hs. cbn. destruct (cachePosition (session s)); repeat constructor.
  - rewrite Hs. destruct (dragging (session s)) eqn:Ed;
      [rewrite (drag_next x y s Ed) | rewrite (drag_first x y s Ed)];
      cbn; repeat constructor.
  - rewrite Hc. constructor.
Qed.

(** C8 : a move whose primary-button bit is not set is a no-op: the hook
    returns at once, without [setBounds] and with [dragging],
    [cachePosition], [initialPos] and the window as they were, also when
    [dragging] is true; taking such a move out of an event sequence changes
    nothing. *)
Theorem released_move_ignored
    (wP lP : Buffer) (v : Z) (es1 es2 : list Win32Event) (s s0 : @Win32 App) :
  readInt16LE wP 0 = Some v ->
  Z.land v MK_LBUTTON = 0%Z ->
  let e := Message (mkMessage WM_MOUSEMOVE wP lP) in
  step e s = done s [] /\
  run (es1 ++ e :: es2) s0 = run (es1 ++ es2) s0.
Proof.
  intros Hv Hb e.
  assert (Hstep : forall t, step e t = done t []).
  { intros t. subst e.
    change (on_WM_MOUSEMOVE wP lP t = done t []).
    apply (move_not_held wP lP v t Hv Hb). }
  split; [apply Hstep|].
  apply outcome_eq.
  - rewrite !after_run_app, run_cons, Hstep. reflexivity.
  - rewrite !calls_run_app, run_cons, Hstep. reflexivity.
  - rewrite !threw_run_app, run_cons, Hstep. reflexivity.
Qed.

(** The state a qualifying move finds when none was processed since the
    last release, and the state it leaves. *)
Lemma origin_move es e x y (h : @Host App) :
  since_release es = 0 ->
  pointer_of e = Some (x, y) ->
  let s := after (run es (registered options h)) in
  step e s =
    done (mkWin32
            (mkSession true None
               (Rectangle.mk x y
                  (ISize.height (resolveSize options (app (host s))))
                  (ISize.width (resolveSize options (app (host s))))))
            (host s)) [].
Proof.
  intros H0 Hp s.
  pose proof (tracks_since_release es h) as Ht. rewrite H0 in Ht.
  apply tracks_idle in Ht as [Hd Hc]. fold s in Hd, Hc.
  rewrite (step_qualifying e x y s Hp), (drag_first x y s Hd), Hc.
  reflexivity.
Qed.

(** C2 : origin capture. The first qualifying move after a release, or after
    registration, calls nothing: it leaves the window alone and records the
    pointer as the drag origin (with the size, and [dragging]). Any later
    qualifying move of the same session, at pointer [p2], calls [setBounds]
    once, with top-left the window's current position plus [p2 - origin] on
    each axis. *)
Theorem origin_capture
    (h : @Host App) (es mid : list Win32Event) (e1 e2 : Win32Event)
    (p1 p2 : Z * Z) :
  since_release es = 0 ->
  pointer_of e1 = Some p1 ->
  no_release mid = true ->
  pointer_of e2 = Some p2 ->
  let s := after (run es (registered options h)) in
  let o1 := step e1 s in
  let s2 := after (run mid (after o1)) in
  let size := resolveSize options (app (host s)) in
  calls o1 = [] /\
  host (after o1) = host s /\
  session (after o1) =
    mkSession true None
      (Rectangle.mk (fst p1) (snd p1) (ISize.height size) (ISize.width size)) /\
  calls (step e2 s2) =
    [SetBounds browserWindow
       (Rectangle.mk
          (fst (getPosition (host s2)) + (fst p2 - fst p1))
          (snd (getPosition (host s2)) + (snd p2 - snd p1))
          (ISize.height size) (ISize.width size))].
Proof.
  intros H0 Hp1 Hmid Hp2 s o1 s2 size.
  destruct p1 as [x1 y1], p2 as [x2 y2].
  assert (Ho1 : o1 = done (mkWin32 (mkSession true None
                   (Rectangle.mk x1 y1 (ISize.height size) (ISize.width size)))
                   (host s)) [])
    by (apply (origin_move es e1 x1 y1 h H0 Hp1)).
  assert (Hd1 : dragging (session (after o1)) = true) by (rewrite Ho1; reflexivity).
  destruct (session_stays mid (after o1) Hd1 Hmid) as (Hd2 & Hi2 & _ & _).
  fold s2 in Hd2, Hi2.
  repeat split; try (rewrite Ho1; reflexivity).
  rewrite (step_qualifying e2 x2 y2 s2 Hp2), (drag_next x2 y2 s2 Hd2).
  unfold origin, captured. rewrite Hi2, Ho1. cbn.
  do 2 f_equal. f_equal; lia.
Qed.

(** Strategy A half of C7: the size captured by the origin-establishing
    move is the resolved size at that moment, and every [setBounds] up to
    the release uses it, whatever the application state becomes. *)
Lemma session_size
    (h : @Host App) (es mid : list Win32Event) (e1 : Win32Event) (p1 : Z * Z) :
  since_release es = 0 ->
  pointer_of e1 = Some p1 ->
  no_release mid = true ->
  let s := after (run es (registered options h)) in
  Forall (sized (resolveSize options (app (host s))))
    (calls (run (e1 :: mid) s)).
Proof.
  intros H0 Hp1 Hmid s. destruct p1 as [x1 y1].
  pose proof (origin_move es e1 x1 y1 h H0 Hp1) as Ho1. fold s in Ho1.
  rewrite run_cons. cbn [calls]. rewrite Ho1 at 1. cbn [calls done app].
  assert (Hd1 : dragging (session (after (step e1 s))) = true)
    by (rewrite Ho1; reflexivity).
  destruct (session_stays mid _ Hd1 Hmid) as (_ & _ & Hz & _).
  replace (captured (after (step e1 s)))
    with (resolveSize options (app (host s))) in Hz; [exact Hz|].
  rewrite Ho1. unfold captured. cbn.
  destruct (resolveSize options (app (host s))). reflexivity.
Qed.

(** C1, as the code has it : release semantics. A release calls [onDragEnd]
    once, with the cached position, when at least one qualifying move after
    the origin-establishing one was processed since the previous release,
    and does not call it otherwise. In a sequence of an origin-establishing
    move, further qualifying moves and a last one, then a release, the one
    [onDragEnd] call carries the last move's delta from the origin applied
    to the position the window has when that last move is processed; every
    earlier move has shifted the window by its own delta, so that position
    is the drag-start position plus the sum of the earlier deltas. *)
Theorem release_reports_last_position
    (h : @Host App) (es history moves : list Win32Event)
    (release e0 last : Win32Event) (o lastp : Z * Z) :
  is_release release = true ->
  since_release history = 0 ->
  pointer_of e0 = Some o ->
  all_qualifying moves = true ->
  pointer_of last = Some lastp ->
  let s := after (run es (registered options h)) in
  let s0 := after (run history (registered options h)) in
  let before_last := after (run (e0 :: moves) s0) in
  (2 <= since_release es ->
   exists p, cachePosition (session s) = Some p /\
             calls (step release s) = [DragEnd (onDragEnd options) (Some p)]) /\
  (since_release es < 2 -> calls (step release s) = []) /\
  drag_ends (calls (run (e0 :: moves ++ [last; release]) s0)) =
    [DragEnd (onDragEnd options)
       (Some (IPoint.mk
                (fst (getPosition (host before_last)) + (fst lastp - fst o))
                (snd (getPosition (host before_last)) + (snd lastp - snd o))))] /\
  getPosition (host before_last) =
    ((fst (getPosition (host s0)) + fst (travel o (omap pointer_of moves)))%Z,
     (snd (getPosition (host s0)) + snd (travel o (omap pointer_of moves)))%Z).
Proof.
  intros Hrel H0 Hp0 Hq Hpl s s0 before_last.
  destruct (tracks_since_release es h) as [_ Hc]. fold s in Hc.
  split; [|split].
  { intros H2. apply Hc in H2.
    destruct (cachePosition (session s)) as [p|] eqn:E; [|congruence].
    exists p. split; [reflexivity|].
    rewrite (step_release release s Hrel). cbn. rewrite E. reflexivity. }
  { intros H2. rewrite (step_release release s Hrel). cbn.
    destruct (cachePosition (session s)) as [p|] eqn:E; [|reflexivity].
    assert (2 <= since_release es) by (apply Hc; congruence). lia. }
  destruct o as [ox oy], lastp as [lx ly].
  pose proof (origin_move history e0 ox oy h H0 Hp0) as Ho1. fold s0 in Ho1.
  set (s1 := after (step e0 s0)) in *.
  assert (Hd1 : dragging (session s1) = true) by (subst s1; rewrite Ho1; reflexivity).
  assert (Hor : origin s1 = (ox, oy)) by (subst s1; rewrite Ho1; reflexivity).
  assert (Hh1 : host s1 = host s0) by (subst s1; rewrite Ho1; reflexivity).
  assert (Hbl : before_last = after (run moves s1)) by reflexivity.
  destruct (session_stays moves s1 Hd1 (all_qualifying_no_release moves Hq))
    as (Hd2 & Hi2 & _ & He2).
  destruct (drag_moves moves s1 Hd1 Hq) as (Hx & Hy & _).
  rewrite <- Hbl in Hd2, Hi2, Hx, Hy. rewrite Hor, Hh1 in Hx, Hy.
  split.
  - change (e0 :: moves ++ [last; release]) with ((e0 :: moves) ++ [last; release]).
    rewrite calls_run_app. fold before_last.
    unfold drag_ends in *. rewrite List.filter_app.
    rewrite (run_cons e0 moves s0). cbn [calls]. rewrite List.filter_app.
    fold s1. rewrite He2, Ho1. cbn [calls done List.filter app].
    assert (Hob : origin before_last = (ox, oy))
      by (unfold origin; rewrite Hi2; exact Hor).
    rewrite (run_cons last [release] before_last), (run_cons release [] _).
    cbn [calls after].
    rewrite (step_qualifying last lx ly before_last Hpl),
      (drag_next lx ly before_last Hd2), Hob.
    cbv zeta. cbn [calls after done].
    rewrite (step_release release _ Hrel). cbn.
    do 3 f_equal. f_equal; lia.
  - unfold getPosition in *. cbn [fst snd] in *. rewrite Hx, Hy. reflexivity.
Qed.

End Win32Facts.

(** * Strategy B *)

Section RegistryFacts.

Context {App : Type}.





(** [has] and [get]: the object of the window's reference. *)
Lemma lookup_registered (c : @WindowDrag App) (w : BrowserWindow) :
  registeredWindows c !! w =
    references c !! w ≫= (fun object => objects c !! object).
Proof. apply lookup_omap. Qed.

(** ** Timers *)












(** Whatever the closures wrap, time passing changes timers only. *)
Lemma same_functions_refl (ds : list Debounced) : same_functions ds ds.
Proof. split; [reflexivity|]. intros i d H. exists d. auto. Qed.

Lemma same_functions_trans (ds1 ds2 ds3 : list Debounced) :
  same_functions ds1 ds2 -> same_functions ds2 ds3 -> same_functions ds1 ds3.
Proof.
  intros [L1 H1] [L2 H2]. split; [congruence|].
  intros i d Hd. destruct (H1 i d Hd) as (d' & Hd' & Ho & Hw).
  destruct (H2 i d' Hd') as (d'' & Hd'' & Ho' & Hw').
  exists d''. repeat split; congruence.
Qed.

Lemma same_functions_insert (ds : list Debounced) i d x :
  ds !! i = Some d -> original x = original d -> wait x = wait d ->
  same_functions ds (<[i := x]> ds).
Proof.
  intros Hd Ho Hw. split; [apply length_insert|].
  intros j e He. destruct (decide (i = j)) as [<-|Hne].
  - exists x. rewrite list_lookup_insert_eq by (eapply lookup_lt_Some; eassumption).
    assert (e = d) by congruence. subst e. auto.
  - exists e. rewrite list_lookup_insert_ne by exact Hne. auto.
Qed.

Lemma same_functions_invoke (ds : list Debounced) j t position :
  same_functions ds (alter (invoke t position) j ds).
Proof.
  split; [apply length_alter|].
  intros i d Hd. destruct (decide (j = i)) as [<-|Hne].
  - exists (invoke t position d). rewrite list_lookup_alter_eq, Hd. cbn. auto.
  - exists d. rewrite list_lookup_alter_ne by exact Hne. auto.
Qed.

Lemma fire_same tau (acc : list Debounced * list Effect) i :
  same_functions (fst acc) (fst (fire tau acc i)).
Proof.
  unfold fire. destruct (fst acc !! i) as [d|] eqn:Ed; [|apply same_functions_refl].
  destruct (timer d) as [[dl pos]|]; [|apply same_functions_refl].
  destruct (dl <=? tau); [|apply same_functions_refl].
  assert (H : same_functions (fst acc)
                (<[i := mkDebounced (original d) (wait d) None]> (fst acc)))
    by (apply (same_functions_insert _ i d); auto).
  destruct (original d) as [cb|j]; cbn [fst]; [exact H|].
  eapply same_functions_trans; [exact H|apply same_functions_invoke].
Qed.

Lemma fires_same tau (l : list nat) :
  forall acc : list Debounced * list Effect,
    same_functions (fst acc) (fst (fold_left (fire tau) l acc)).
Proof.
  induction l as [|i l IH]; intros acc; [apply same_functions_refl|].
  cbn [fold_left]. eapply same_functions_trans; [apply fire_same|apply IH].
Qed.

Lemma elapse_same n t :
  forall acc : list Debounced * list Effect,
    same_functions (fst acc) (fst (elapse n t acc)).
Proof.
  induction n as [|n IH]; intros acc; cbn [elapse]; unfold tick.
  - apply fires_same.
  - eapply same_functions_trans; [apply fires_same|apply IH].
Qed.

Lemma advance_same t (c : @WindowDrag App) :
  same_functions (closures c) (closures (after (advance t c))).
Proof. unfold advance. cbn. apply (elapse_same _ _ (closures c, [])). Qed.

(** ** Messages of a registered window *)



(** ** The registry *)





Lemma request_without_entry
    (c : @WindowDrag App) (w : BrowserWindow) (position : option IPoint.t) :
  registeredWindows c !! w = None ->
  on_set_window_draggable (Some w) position c = done c [].
Proof. intros H. unfold on_set_window_draggable. rewrite H. reflexivity. Qed.

(** C9 : an unregistered target is silently ignored. A
    "set-window-draggable" message whose window is not in the registry, or
    that has no window at all, whatever its payload: no [setBounds], no
    [onDragEnd], the controller (registry and timers) as it was, and no
    exception. *)
Theorem unregistered_target_ignored
    (c : @WindowDrag App) (w : BrowserWindow) (position : option IPoint.t) :
  registeredWindows c !! w = None ->
  on_set_window_draggable (Some w) position c = done c [] /\
  on_set_window_draggable None position c = done c [].
Proof.
  intros H. split; [apply request_without_entry, H|reflexivity].
Qed.






(** C7 : effective size resolution. The size is [getWindowSize()] when the
    option is there and the registered [width]/[height] otherwise. Under
    Strategy A it is resolved by the origin-establishing move and every
    [setBounds] up to the release carries that size, whatever happens to
    the application state meanwhile. Under Strategy B a message of a
    registered window calls [setBounds] with its own [x], [y] and the size
    resolved when it is handled. *)
Theorem effective_size_resolution
    (browserWindow : BrowserWindow) (options : @IDragOptions App)
    (h : Host) (es mid : list Win32Event) (e1 : Win32Event) (p1 : Z * Z)
    (c : @WindowDrag App) (w : BrowserWindow) (m : ManagedWindow)
    (p : IPoint.t) :
  since_release es = 0 ->
  pointer_of e1 = Some p1 ->
  no_release mid = true ->
  registeredWindows c !! w = Some m ->
  let s := after (run browserWindow options es (registered options h)) in
  (forall f a, getWindowSize options = Some f -> resolveSize options a = f a) /\
  (forall a, getWindowSize options = None ->
             resolveSize options a = ISize.mk (width options) (height options)) /\
  captured (after (step browserWindow options e1 s)) =
    resolveSize options (app (host s)) /\
  Forall (sized (resolveSize options (app (host s))))
    (calls (run browserWindow options (e1 :: mid) s)) /\
  calls (on_set_window_draggable (Some w) (Some p) c) =
    [SetBounds w
       (Rectangle.mk (IPoint.x p) (IPoint.y p)
          (ISize.height (resolveSize (metadata m) (application c)))
          (ISize.width (resolveSize (metadata m) (application c))))].
Proof.
  intros H0 Hp1 Hmid Hw s.
  split; [|split; [|split; [|split]]].
  - intros f a Hf. unfold resolveSize. rewrite Hf. reflexivity.
  - intros a Hf. unfold resolveSize. rewrite Hf. reflexivity.
  - destruct p1 as [x1 y1].
    pose proof (origin_move browserWindow options es e1 x1 y1 h H0 Hp1) as Ho.
    fold s in Ho. rewrite Ho. unfold captured. cbn.
    destruct (resolveSize options (app (host s))). reflexivity.
  - apply (session_size browserWindow options h es mid e1 p1 H0 Hp1 Hmid).
  - unfold on_set_window_draggable. rewrite Hw. reflexivity.
Qed.

End RegistryFacts.
(** * The theorems at concrete inputs *)

(** C1 as the spec states it fails: origin at (50, 60) with the window at
    (100, 100), moves at (70, 60) and (80, 60), release. The first move puts
    the window at x = 120, so the second puts it at 80 + 120 - 50 = 150, and
    [onDragEnd] receives (150, 100), not 100 + (80 - 50) = 130. *)
Lemma drag_end_is_not_start_plus_last_delta :
  ~ claimed_release_report 1 sample_options sample_host
      (50, 60)%Z [(70, 60)%Z] (80, 60)%Z.
Proof. unfold claimed_release_report. vm_compute. discriminate. Qed.

Example drag_end_after_two_moves :
  drag_ends
    (calls (run 1 sample_options
              [held_move (50, 60)%Z; held_move (70, 60)%Z; held_move (80, 60)%Z;
               button_up]
              (registered sample_options sample_host))) =
  [DragEnd 7 (Some (IPoint.mk 150 100))].
Proof. vm_compute. reflexivity. Qed.

Lemma release_reports_last_position_witness :
  drag_ends
    (calls (run 1 sample_options
              [held_move (50, 60)%Z; held_move (70, 60)%Z; held_move (80, 60)%Z;
               button_up]
              (registered sample_options sample_host))) =
  [DragEnd 7 (Some (IPoint.mk (120 + (80 - 50)) (100 + (60 - 60))))] /\
  calls (step 1 sample_options button_up
           (after (run 1 sample_options [held_move (50, 60)%Z]
                     (registered sample_options sample_host)))) = [].
Proof.
  pose proof (release_reports_last_position 1 sample_options sample_host
                [held_move (50, 60)%Z] [] [held_move (70, 60)%Z]
                button_up (held_move (50, 60)%Z) (held_move (80, 60)%Z)
                (50, 60)%Z (80, 60)%Z
                eq_refl eq_refl eq_refl eq_refl eq_refl) as (_ & Hnone & Hlast & _).
  split.
  - exact Hlast.
  - apply Hnone. vm_compute. lia.
Defined.

Lemma origin_capture_witness :
  calls (step 1 sample_options (held_move (50, 60)%Z)
           (registered sample_options sample_host)) = [] /\
  calls (step 1 sample_options (held_move (70, 60)%Z)
           (after (step 1 sample_options (held_move (50, 60)%Z)
                     (registered sample_options sample_host)))) =
    [SetBounds 1 (Rectangle.mk (100 + (70 - 50)) (100 + (60 - 60)) 200 300)].
Proof.
  pose proof (origin_capture 1 sample_options sample_host [] []
                (held_move (50, 60)%Z) (held_move (70, 60)%Z)
                (50, 60)%Z (70, 60)%Z
                eq_refl eq_refl eq_refl eq_refl) as (Hfirst & _ & _ & Hnext).
  split; [exact Hfirst | exact Hnext].
Defined.

Lemma released_move_ignored_witness :
  step 1 sample_options (free_move (70, 60)%Z)
    (after (step 1 sample_options (held_move (50, 60)%Z)
              (registered sample_options sample_host))) =
  done (after (step 1 sample_options (held_move (50, 60)%Z)
                 (registered sample_options sample_host))) [] /\
  run 1 sample_options
    ([held_move (50, 60)%Z] ++ free_move (70, 60)%Z :: [held_move (80, 60)%Z; button_up])
    (registered sample_options sample_host) =
  run 1 sample_options
    ([held_move (50, 60)%Z] ++ [held_move (80, 60)%Z; button_up])
    (registered sample_options sample_host).
Proof.
  apply (released_move_ignored 1 sample_options
           (wParam (move_message 0 70 60)) (lParam (move_message 0 70 60)) 0%Z
           [held_move (50, 60)%Z] [held_move (80, 60)%Z; button_up]).
  - vm_compute. reflexivity.
  - reflexivity.
Defined.

Lemma unregistered_target_ignored_witness :
  on_set_window_draggable (Some 2) None sample_controller =
    done sample_controller [] /\
  on_set_window_draggable None None sample_controller =
    done sample_controller [].
Proof.
  apply (unregistered_target_ignored sample_controller 2 None).
  vm_compute. reflexivity.
Defined.








Lemma effective_size_resolution_witness :
  Forall (sized (ISize.mk 640 480))
    (calls (run 1 sample_options_sized
              [held_move (50, 60)%Z; AppUpdate (ISize.mk 1 1); held_move (70, 60)%Z]
              (registered sample_options_sized sample_host))) /\
  calls (on_set_window_draggable (Some 1) (Some (IPoint.mk 10 20)) sample_controller) =
    [SetBounds 1 (Rectangle.mk 10 20 480 640)].
Proof.
  pose proof (effective_size_resolution 1 sample_options_sized sample_host []
                [AppUpdate (ISize.mk 1 1); held_move (70, 60)%Z]
                (held_move (50, 60)%Z) (50, 60)%Z
                sample_controller 1 (mkManaged sample_options_sized 0)
                (IPoint.mk 10 20)
                eq_refl eq_refl eq_refl eq_refl) as (_ & _ & _ & HA & HB).
  split; [exact HA | exact HB].
Defined.

(** * Further properties of the hooks *)

Lemma readInt16LE_None_iff (buf : Buffer) (offset : nat) :
  readInt16LE buf offset = None <-> length buf < offset + 2.
Proof.
  unfold readInt16LE.
  destruct (buf !! offset) as [a|] eqn:Ea.
  - destruct (buf !! S offset) as [b|] eqn:Eb.
    + apply lookup_lt_Some in Eb. split; [discriminate|lia].
    + apply lookup_ge_None in Eb. split; [lia|reflexivity].
  - apply lookup_ge_None in Ea. split; [lia|reflexivity].
Qed.

Lemma readInt16LE_range (buf : Buffer) (offset : nat) (v : Z) :
  readInt16LE buf offset = Some v -> in_int16 v.
Proof.
  unfold readInt16LE, in_int16.
  destruct (buf !! offset) as [a|]; [|discriminate].
  destruct (buf !! S offset) as [b|]; [|discriminate].
  intros [= <-].
  pose proof (byte_value_range a). pose proof (byte_value_range b).
  destruct (Z.leb_spec (2 ^ 15) (byte_value a + byte_value b * 2 ^ 8)); lia.
Qed.

Lemma pointer_range (lP : Buffer) (x y : Z) :
  pointer lP = Some (x, y) -> in_int16 x /\ in_int16 y.
Proof.
  unfold pointer.
  destruct (readInt16LE lP 0) as [x'|] eqn:Ex; [|discriminate].
  destruct (readInt16LE lP 2) as [y'|] eqn:Ey; [|discriminate].
  intros [= <- <-]. split; eapply readInt16LE_range; eassumption.
Qed.

Section HookFacts.

Context {App : Type}.
Variable browserWindow : BrowserWindow.
Variable options : @IDragOptions App.

(** X1 : the hooks throw before they act. A hook throws exactly on a
    [WM_MOUSEMOVE] whose [wParam] is shorter than 2 bytes, or whose button
    bit is set while [lParam] is shorter than 4 bytes; when it throws, the
    closure variables and the window are as before and nothing was called
    (in particular [dragging] is not set by a move whose coordinates cannot
    be read). *)
Theorem hook_throws_before_acting (e : Win32Event) (s : @Win32 App) :
  threw (step browserWindow options e s) = faulty e /\
  (threw (step browserWindow options e s) = true ->
   after (step browserWindow options e s) = s /\
   calls (step browserWindow options e s) = []).
Proof.
  destruct e as [m|a]; [|split; [reflexivity|discriminate]].
  cbn [step faulty]. unfold deliver.
  destruct (Z.eqb_spec (message m) WM_LBUTTONUP) as [Eup|Eup].
  { rewrite Eup. split; [reflexivity|discriminate]. }
  destruct (message m =? WM_MOUSEMOVE)%Z; cbn [andb];
    [|split; [reflexivity|discriminate]].
  unfold on_WM_MOUSEMOVE, button_held.
  destruct (readInt16LE (wParam m) 0) as [v|] eqn:Ew.
  - assert (Hw : (length (wParam m) <? 2) = false).
    { apply Nat.ltb_ge. destruct (Nat.le_gt_cases 2 (length (wParam m))); [assumption|].
      assert (readInt16LE (wParam m) 0 = None) by (apply readInt16LE_None_iff; lia).
      congruence. }
    rewrite Hw. cbn [orb].
    destruct (Z.land v MK_LBUTTON =? 0)%Z; cbn [negb andb];
      [split; [reflexivity|discriminate]|].
    destruct (readInt16LE (lParam m) 0) as [x|] eqn:Ex.
    + destruct (readInt16LE (lParam m) 2) as [y|] eqn:Ey.
      * assert (Hl : (length (lParam m) <? 4) = false).
        { apply Nat.ltb_ge. destruct (Nat.le_gt_cases 4 (length (lParam m))); [assumption|].
          assert (readInt16LE (lParam m) 2 = None) by (apply readInt16LE_None_iff; lia).
          congruence. }
        rewrite Hl. unfold drag.
        destruct (negb (dragging (session s))); split; first [reflexivity|discriminate].
      * apply readInt16LE_None_iff in Ey.
        assert (Hl : (length (lParam m) <? 4) = true) by (apply Nat.ltb_lt; lia).
        rewrite Hl. split; [reflexivity|]. intros _. split; reflexivity.
    + apply readInt16LE_None_iff in Ex.
      assert (Hl : (length (lParam m) <? 4) = true) by (apply Nat.ltb_lt; lia).
      rewrite Hl. split; [reflexivity|]. intros _. split; reflexivity.
  - apply readInt16LE_None_iff in Ew.
    assert (Hw : (length (wParam m) <? 2) = true) by (apply Nat.ltb_lt; lia).
    rewrite Hw. split; [reflexivity|]. intros _. split; reflexivity.
Qed.

#[local] Abbreviation step := (step browserWindow options).
#[local] Abbreviation run := (run browserWindow options).

(** The state the hooks are in while no drag is going on. *)
Lemma idle_step e (s : @Win32 App) :
  dragging (session s) = false ->
  cachePosition (session s) = None ->
  qualifying e = false ->
  calls (step e s) = [] /\
  dragging (session (after (step e s))) = false /\
  cachePosition (session (after (step e s))) = None /\
  bounds (host (after (step e s))) = bounds (host s).
Proof.
  intros Hd Hc Hq. unfold qualifying in Hq.
  destruct (step_cases browserWindow options e s)
    as [[_ Hs]|[(x & y & _ & Hp & _)|(_ & _ & Hs & Hb & Hcalls)]].
  - rewrite Hs. cbn. rewrite Hc. auto.
  - rewrite Hp in Hq. discriminate.
  - rewrite Hs, Hb, Hcalls. auto.
Qed.

(** X2 : without the button, nothing happens. If no event of a sequence is a
    move with the primary button held (releases, moves with the button up,
    unreadable messages and other messages are allowed), the hooks of a
    freshly registered window call neither [setBounds] nor [onDragEnd], and
    the window stays where it is. *)
Theorem no_button_no_effect (h : @Host App) (es : list Win32Event) :
  never_held es = true ->
  calls (run es (registered options h)) = [] /\
  bounds (host (after (run es (registered options h)))) = bounds h /\
  dragging (session (after (run es (registered options h)))) = false /\
  cachePosition (session (after (run es (registered options h)))) = None.
Proof.
  assert (G : forall (s : @Win32 App),
             dragging (session s) = false -> cachePosition (session s) = None ->
             never_held es = true ->
             calls (run es s) = [] /\
             bounds (host (after (run es s))) = bounds (host s) /\
             dragging (session (after (run es s))) = false /\
             cachePosition (session (after (run es s))) = None).
  { induction es as [|e es IH]; intros s Hd Hc Hn; [cbn; auto|].
    cbn [never_held forallb] in Hn. apply andb_prop in Hn as [He Hn].
    apply negb_true_iff in He.
    destruct (idle_step e s Hd Hc He) as (Hcalls & Hd1 & Hc1 & Hb1).
    destruct (IH (after (step e s)) Hd1 Hc1 Hn) as (Hcalls2 & Hb2 & Hd2 & Hc2).
    rewrite run_cons. cbn [calls after]. rewrite Hcalls, Hcalls2, Hb2, Hb1. auto. }
  intros Hn. apply (G (registered options h)); auto.
Qed.

End HookFacts.

Section HookTraces.

Context {App : Type}.
Variable browserWindow : BrowserWindow.
Variable options : @IDragOptions App.

#[local] Abbreviation step := (step browserWindow options).
#[local] Abbreviation run := (run browserWindow options).

Lemma reported_after_put_run (es : list Win32Event) :
  forall (s : @Win32 App) prev,
    cache_was_put prev s ->
    reported_after_put prev (calls (run es s)).
Proof.
  induction es as [|e es IH]; intros s prev Hinv; [exact I|].
  rewrite run_cons. cbn [calls].
  destruct (step_cases browserWindow options e s)
    as [[_ Hs]|[(x & y & _ & _ & Hs)|(_ & _ & Hs & _ & Hcalls)]].
  - rewrite Hs. cbn [on_WM_LBUTTONUP done calls after session].
    destruct (cachePosition (session s)) as [p|] eqn:Ec.
    + destruct (Hinv p Ec) as (w & b & -> & ->).
      cbn [app reported_after_put]. split; [reflexivity|].
      apply IH. intros q Hq. cbn in Hq. discriminate.
    + cbn [app]. apply IH. intros q Hq. cbn in Hq. discriminate.
  - rewrite Hs. destruct (dragging (session s)) eqn:Ed.
    + rewrite (drag_next browserWindow options x y s Ed).
      cbv zeta. cbn [calls after done app reported_after_put].
      split; [exact I|]. apply IH. intros q Hq. cbn in Hq.
      injection Hq as <-. eexists _, _. split; reflexivity.
    + rewrite (drag_first browserWindow options x y s Ed).
      cbn [calls after done app]. apply IH.
      intros q Hq. cbn in Hq. exact (Hinv q Hq).
  - rewrite Hcalls. cbn [app]. apply IH.
    intros q Hq. rewrite Hs in Hq. exact (Hinv q Hq).
Qed.

(** X3 : [onDragEnd] reports where the window was last put. In the calls
    the hooks make over any event sequence, every [onDragEnd] call comes
    right after a [setBounds] call and carries the top-left corner given to
    that call; so [onDragEnd] is never the first call, and never called
    twice in a row. *)
Theorem drag_end_reports_last_put (h : @Host App) (es : list Win32Event) :
  reported_after_put None (calls (run es (registered options h))).
Proof.
  apply reported_after_put_run. intros p Hp. cbn in Hp. discriminate.
Qed.

Lemma cache_is_window_step e (s : @Win32 App) :
  cache_is_window s -> cache_is_window (after (step e s)).
Proof.
  intros Hinv.
  destruct (step_cases browserWindow options e s)
    as [[_ Hs]|[(x & y & _ & _ & Hs)|(_ & _ & Hs & Hb & _)]].
  - rewrite Hs. intros p Hp. cbn in Hp. discriminate.
  - rewrite Hs. destruct (dragging (session s)) eqn:Ed.
    + rewrite (drag_next browserWindow options x y s Ed).
      intros p Hp. cbn in Hp. injection Hp as <-. cbn. split; reflexivity.
    + rewrite (drag_first browserWindow options x y s Ed).
      intros p Hp. cbn in Hp. destruct (Hinv p Hp) as [Hd _]. congruence.
  - intros p Hp. rewrite Hs in Hp. destruct (Hinv p Hp) as [Hd Hbounds].
    rewrite Hs, Hb. split; assumption.
Qed.

Lemma cache_is_window_run es (s : @Win32 App) :
  cache_is_window s -> cache_is_window (after (run es s)).
Proof.
  revert s. induction es as [|e es IH]; intros s H; [exact H|].
  rewrite run_cons. cbn [after]. apply IH, cache_is_window_step, H.
Qed.

(** X4 : the cached position is the window's position. After any event
    sequence, a non-null [cachePosition] means that a drag is going on and
    that the window's bounds are that position with the size captured in
    [initialPos]; so whenever a hook calls [onDragEnd], the position it
    hands over is the top-left corner the window has at that moment. *)
Theorem drag_end_reports_window_position
    (h : @Host App) (es : list Win32Event) (e : Win32Event) :
  let s := after (run es (registered options h)) in
  cache_is_window s /\
  forall cb p,
    In (DragEnd cb (Some p)) (calls (step e s)) ->
    getPosition (host s) = (IPoint.x p, IPoint.y p).
Proof.
  intros s.
  assert (Hinv : cache_is_window s).
  { apply cache_is_window_run. intros p Hp. cbn in Hp. discriminate. }
  split; [exact Hinv|]. intros cb p Hin.
  destruct (step_cases browserWindow options e s)
    as [[_ Hs]|[(x & y & _ & _ & Hs)|(_ & _ & _ & _ & Hcalls)]].
  - rewrite Hs in Hin. cbn in Hin.
    destruct (cachePosition (session s)) as [q|] eqn:Ec; [|destruct Hin].
    destruct Hin as [Hin|[]]. injection Hin as _ <-.
    destruct (Hinv q Ec) as [_ Hb]. unfold getPosition. rewrite Hb. reflexivity.
  - rewrite Hs in Hin. destruct (dragging (session s)) eqn:Ed.
    + rewrite (drag_next browserWindow options x y s Ed) in Hin.
      cbn in Hin. destruct Hin as [Hin|[]]. discriminate.
    + rewrite (drag_first browserWindow options x y s Ed) in Hin. destruct Hin.
  - rewrite Hcalls in Hin. destruct Hin.
Qed.

Lemma origin_in_range_step e (s : @Win32 App) :
  origin_in_range s -> origin_in_range (after (step e s)).
Proof.
  intros Hinv.
  destruct (step_cases browserWindow options e s)
    as [[_ Hs]|[(x & y & _ & Hp & Hs)|(_ & _ & Hs & _ & _)]].
  - rewrite Hs. exact Hinv.
  - rewrite Hs. destruct (dragging (session s)) eqn:Ed.
    + rewrite (drag_next browserWindow options x y s Ed). exact Hinv.
    + rewrite (drag_first browserWindow options x y s Ed).
      destruct e as [m|a]; [|discriminate]. cbn in Hp.
      destruct ((message m =? WM_MOUSEMOVE)%Z && button_held (wParam m));
        [|discriminate].
      apply pointer_range in Hp. exact Hp.
  - unfold origin_in_range, origin. rewrite Hs. exact Hinv.
Qed.

Lemma origin_in_range_run es (s : @Win32 App) :
  origin_in_range s -> origin_in_range (after (run es s)).
Proof.
  revert s. induction es as [|e es IH]; intros s H; [exact H|].
  rewrite run_cons. cbn [after]. apply IH, origin_in_range_step, H.
Qed.

(** X5 : one event moves the window by less than [2 ^ 16]. The pointer and
    the drag origin are 16-bit coordinates, so whatever the events before,
    a [setBounds] call made for an event puts the window less than 65536
    away, on each axis, from where it is when the event arrives. *)
Theorem displacement_is_bounded
    (h : @Host App) (es : list Win32Event) (e : Win32Event) :
  let s := after (run es (registered options h)) in
  Forall (within_reach (getPosition (host s))) (calls (step e s)).
Proof.
  intros s.
  assert (Hinv : origin_in_range s).
  { apply origin_in_range_run. unfold origin_in_range, in_int16. cbn. lia. }
  destruct (step_cases browserWindow options e s)
    as [[_ Hs]|[(x & y & _ & Hp & Hs)|(_ & _ & _ & _ & Hcalls)]].
  - rewrite Hs. cbn. destruct (cachePosition (session s)); repeat constructor.
  - rewrite Hs. destruct (dragging (session s)) eqn:Ed.
    + rewrite (drag_next browserWindow options x y s Ed).
      destruct e as [m|a]; [|discriminate]. cbn in Hp.
      destruct ((message m =? WM_MOUSEMOVE)%Z && button_held (wParam m));
        [|discriminate].
      apply pointer_range in Hp. destruct Hp as [Hx Hy].
      destruct Hinv as [Hox Hoy]. unfold in_int16 in *.
      cbv zeta. cbn [calls done]. constructor; [|constructor].
      cbn [within_reach Rectangle.x Rectangle.y]. split; lia.
    + rewrite (drag_first browserWindow options x y s Ed). constructor.
  - rewrite Hcalls. constructor.
Qed.

End HookTraces.

(** * Further properties of the registry *)

Section ControllerFacts.

Context {App : Type}.

(** X6 : the listener throws before it acts. The "set-window-draggable"
    listener throws exactly when the sender's window is registered and the
    payload is null; then [setBounds] was not called, no timer was started
    and the controller is as before. *)
Theorem request_throws_before_acting
    (sender : option BrowserWindow) (position : option IPoint.t)
    (c : @WindowDrag App) :
  threw (on_set_window_draggable sender position c) =
    malformed_request sender position c /\
  (threw (on_set_window_draggable sender position c) = true ->
   after (on_set_window_draggable sender position c) = c /\
   calls (on_set_window_draggable sender position c) = []).
Proof.
  unfold on_set_window_draggable, malformed_request.
  destruct sender as [w|]; [|destruct position; split; first [reflexivity|discriminate]].
  destruct (registeredWindows c !! w) as [m|];
    destruct position as [p|]; cbn; split;
    first [reflexivity | discriminate | (intros _; split; reflexivity)].
Qed.

(** X7 : a message touches one closure only. Whatever its sender and
    payload, a "set-window-draggable" message leaves the registry, the
    "closed" listeners, the hooks, the clock and the number of closures as
    they are, and every closure other than the one of the sender's registry
    entry keeps its timer. *)
Theorem request_touches_one_closure
    (sender : option BrowserWindow) (position : option IPoint.t)
    (c : @WindowDrag App) (j : nat) :
  let c' := after (on_set_window_draggable sender position c) in
  registeredWindows c' = registeredWindows c /\
  closedListeners c' = closedListeners c /\
  hooked c' = hooked c /\
  now c' = now c /\
  length (closures c') = length (closures c) /\
  ((forall w m, sender = Some w -> registeredWindows c !! w = Some m ->
                debounced m <> j) ->
   closures c' !! j = closures c !! j).
Proof.
  unfold on_set_window_draggable.
  destruct sender as [w|]; [|cbn; auto 10].
  destruct (registeredWindows c !! w) as [m|] eqn:Ew; [|cbn; auto 10].
  destruct position as [p|]; [|cbn; auto 10].
  cbn. repeat split.
  - apply length_alter.
  - intros Hj. apply list_lookup_alter_ne. exact (Hj w m eq_refl Ew).
Qed.

(** X8 : closing is idempotent and local. A second "closed" notification of
    the same window changes nothing; the notification of one window leaves
    the entries of the others, the closures and their timers, the listeners
    and the hooks as they are; and for a window without the listener (never
    registered off win32) it does nothing at all. *)
Theorem closing_is_local (w w' : BrowserWindow) (c : @WindowDrag App) :
  on_closed w (on_closed w c) = on_closed w c /\
  (w' <> w ->
   registeredWindows (on_closed w c) !! w' = registeredWindows c !! w') /\
  closures (on_closed w c) = closures c /\
  closedListeners (on_closed w c) = closedListeners c /\
  hooked (on_closed w c) = hooked c /\
  (w ∉ closedListeners c -> on_closed w c = c).
Proof.
  unfold on_closed.
  destruct (decide (w ∈ closedListeners c)) as [Hin|Hout].
  - cbn. rewrite decide_True by exact Hin. unfold with_registry. cbn.
    rewrite delete_delete_eq. repeat split; try contradiction.
    intros Hne. rewrite lookup_registered, lookup_omap.
    rewrite lookup_delete_ne by congruence. reflexivity.
  - rewrite decide_False by exact Hout. repeat split; reflexivity.
Qed.

(** X9 : handing in an object, then asking. Off win32, right after
    [setWindowDraggable(window, options)] the window is registered with the
    object, whose [onDragEnd] member now holds a closure made by this call;
    that closure wraps what the member held before, the caller's function
    for a new object and the closure of the earlier call for an object
    handed in before. A message of the window is served with the members of
    the object. The windows registered with another object are as before;
    the windows registered with the same object see its new closure. *)
Theorem register_then_request
    (c : @WindowDrag App) (w w' : BrowserWindow) (options : Options)
    (object : nat) (o : IDragOptions) (fn : Handler) (p : IPoint.t) :
  String.eqb (platform c) "win32" = false ->
  handed options c = Some (object, o, fn) ->
  let c' := setWindowDraggable w options c in
  let m := mkManaged o (length (closures c)) in
  registeredWindows c' !! w = Some m /\
  closures c' = closures c ++ [debounce fn DEBOUNCE_WAIT] /\
  calls (on_set_window_draggable (Some w) (Some p) c') =
    [SetBounds w
       (Rectangle.mk (IPoint.x p) (IPoint.y p)
          (ISize.height (resolveSize o (application c)))
          (ISize.width (resolveSize o (application c))))] /\
  (w' <> w -> references c !! w' <> Some object ->
   registeredWindows c' !! w' = registeredWindows c !! w') /\
  (references c !! w' = Some object -> registeredWindows c' !! w' = Some m).
Proof.
  intros Hp Hh c' m.
  assert (Hw : registeredWindows c' !! w = Some m).
  { subst c'. unfold setWindowDraggable. rewrite Hp.
    destruct options as [o0|object0]; cbn in Hh.
    - injection Hh as <- <- <-. rewrite lookup_registered. cbn.
      rewrite lookup_insert_eq. cbn.
      rewrite lookup_app_r by lia. rewrite Nat.sub_diag. reflexivity.
    - destruct (objects c !! object0) as [m0|] eqn:E0; [|discriminate].
      injection Hh as <- <- <-. rewrite lookup_registered. cbn.
      rewrite lookup_insert_eq. cbn.
      rewrite list_lookup_insert_eq by (eapply lookup_lt_Some; eassumption).
      reflexivity. }
  split; [exact Hw|]. split; [|split; [|split]].
  - subst c'. unfold setWindowDraggable. rewrite Hp.
    destruct options as [o0|object0]; cbn in Hh.
    + injection Hh as <- <- <-. reflexivity.
    + destruct (objects c !! object0) as [m0|]; [|discriminate].
      injection Hh as <- <- <-. reflexivity.
  - unfold on_set_window_draggable. rewrite Hw. cbn [calls done metadata m].
    replace (application c') with (application c); [reflexivity|].
    subst c'. unfold setWindowDraggable. rewrite Hp.
    destruct options as [o0|object0]; [reflexivity|].
    destruct (objects c !! object0); reflexivity.
  - intros Hne Href. rewrite !lookup_registered.
    subst c'. unfold setWindowDraggable. rewrite Hp.
    destruct options as [o0|object0]; cbn in Hh.
    + injection Hh as <- <- <-. cbn.
      rewrite lookup_insert_ne by congruence.
      destruct (references c !! w') as [r|]; [|reflexivity]. cbn.
      destruct (Nat.lt_trichotomy r (length (objects c))) as [Hlt|[Heq|Hgt]].
      * rewrite lookup_app_l by exact Hlt. reflexivity.
      * congruence.
      * rewrite !lookup_ge_None_2; [reflexivity|lia|].
        rewrite length_app. cbn. lia.
    + destruct (objects c !! object0) as [m0|] eqn:E0; [|discriminate].
      injection Hh as <- <- <-. cbn.
      rewrite lookup_insert_ne by congruence.
      destruct (references c !! w') as [r|]; [|reflexivity]. cbn.
      rewrite list_lookup_insert_ne by congruence. reflexivity.
  - intros Href. destruct (decide (w' = w)) as [->|Hne]; [exact Hw|].
    rewrite lookup_registered.
    subst c'. unfold setWindowDraggable. rewrite Hp.
    destruct options as [o0|object0]; cbn in Hh.
    + injection Hh as <- <- <-. cbn.
      rewrite lookup_insert_ne by congruence. rewrite Href. cbn.
      rewrite lookup_app_r by lia. rewrite Nat.sub_diag. reflexivity.
    + destruct (objects c !! object0) as [m0|] eqn:E0; [|discriminate].
      injection Hh as <- <- <-. cbn.
      rewrite lookup_insert_ne by congruence. rewrite Href. cbn.
      rewrite list_lookup_insert_eq by (eapply lookup_lt_Some; eassumption).
      reflexivity.
Qed.

Lemma platform_dispatch e (c : @WindowDrag App) :
  platform (after (dispatch e c)) = platform c.
Proof.
  destruct e as [sender position|w|w opts|w object|a|]; cbn [dispatch after done];
    try reflexivity.
  - unfold on_set_window_draggable.
    destruct sender as [w|]; [|reflexivity].
    destruct (registeredWindows c !! w); [|reflexivity].
    destruct position; reflexivity.
  - unfold on_closed. destruct (decide _); reflexivity.
  - unfold setWindowDraggable.
    destruct (String.eqb (platform c) "win32"); reflexivity.
  - unfold setWindowDraggable.
    destruct (String.eqb (platform c) "win32"), (objects c !! object); reflexivity.
Qed.

Lemma platform_turn g e (c : @WindowDrag App) :
  platform (after (turn g e c)) = platform c.
Proof. unfold turn. cbn [after]. rewrite platform_dispatch. reflexivity. Qed.

Lemma elapse_nil n t es :
  elapse n t ([], es) = ([], es).
Proof. induction n as [|n IH]; cbn [elapse]; unfold tick; cbn; [reflexivity|exact IH]. Qed.

(** On win32 a turn of the event loop finds and leaves the registry and the
    stores empty, and calls nothing. *)
Lemma win32_turn g e (c : @WindowDrag App) :
  String.eqb (platform c) "win32" = true ->
  references c = ∅ -> objects c = [] -> closures c = [] ->
  closedListeners c = ∅ ->
  references (after (turn g e c)) = ∅ /\
  objects (after (turn g e c)) = [] /\
  closures (after (turn g e c)) = [] /\
  closedListeners (after (turn g e c)) = ∅ /\
  calls (turn g e c) = [] /\
  threw (turn g e c) = false.
Proof.
  intros Hp Hr Ho Hc Hl. unfold turn, advance. rewrite Hc, elapse_nil.
  cbn [after calls done fst snd app].
  destruct e as [sender position|w|w opts|w object|a|];
    cbn [dispatch after calls threw done].
  - unfold on_set_window_draggable.
    destruct sender as [w|]; [|cbn; auto 10].
    rewrite lookup_registered. cbn [references]. rewrite Hr, lookup_empty.
    cbn. auto 10.
  - unfold on_closed. cbn [closedListeners]. rewrite Hl.
    rewrite decide_False by set_solver. cbn. auto 10.
  - unfold setWindowDraggable. cbn [platform]. rewrite Hp. cbn. auto 10.
  - unfold setWindowDraggable. cbn [platform objects]. rewrite Hp, Ho.
    cbn. auto 10.
  - cbn. auto 10.
  - cbn. auto 10.
Qed.

(** Off win32 no turn installs a hook. *)
Lemma other_turn g e (c : @WindowDrag App) :
  String.eqb (platform c) "win32" = false ->
  hooked (after (turn g e c)) = hooked c.
Proof.
  intros Hp. unfold turn. cbn [after].
  destruct e as [sender position|w|w opts|w object|a|]; cbn [dispatch after done];
    try reflexivity.
  - unfold on_set_window_draggable.
    destruct sender as [w|]; [|reflexivity].
    destruct (registeredWindows _ !! w); [|reflexivity].
    destruct position; reflexivity.
  - unfold on_closed. destruct (decide _); reflexivity.
  - unfold setWindowDraggable. cbn [platform advance after done].
    rewrite Hp. reflexivity.
  - unfold setWindowDraggable. cbn [platform advance after done].
    rewrite Hp. destruct (objects _ !! object); reflexivity.
Qed.

Lemma registered_empty (c : @WindowDrag App) :
  references c = ∅ -> registeredWindows c = ∅.
Proof. intros H. unfold registeredWindows. rewrite H. apply omap_empty. Qed.

(** X10 : the two strategies exclude each other. Whatever is registered,
    asked, closed, and however time passes, a controller on win32 never has
    a registry entry, a debounced closure or a "closed" listener, and a
    controller elsewhere never has a hooked window; the platform decides,
    once and for all windows. *)
Theorem strategies_are_exclusive
    (p : string) (t : nat) (a : App) (es : list (nat * Event)) :
  let c := after (play es (initial p t a)) in
  platform c = p /\
  if String.eqb p "win32"
  then registeredWindows c = ∅ /\ closures c = [] /\ closedListeners c = ∅
  else hooked c = ∅.
Proof.
  assert (G : forall (c0 : @WindowDrag App),
             platform (after (play es c0)) = platform c0 /\
             (String.eqb (platform c0) "win32" = true ->
              references c0 = ∅ -> objects c0 = [] -> closures c0 = [] ->
              closedListeners c0 = ∅ ->
              references (after (play es c0)) = ∅ /\
              closures (after (play es c0)) = [] /\
              closedListeners (after (play es c0)) = ∅) /\
             (String.eqb (platform c0) "win32" = false ->
              hooked (after (play es c0)) = hooked c0)).
  { induction es as [|[g e] es IH]; intros c0; [cbn; auto|].
    cbn [play after].
    destruct (IH (after (turn g e c0))) as (Hp & Hw & Ho).
    rewrite platform_turn in Hp, Hw, Ho.
    split; [exact Hp|]. split.
    - intros Hwin Hr Hob Hc Hl.
      destruct (win32_turn g e c0 Hwin Hr Hob Hc Hl) as (Hr1 & Ho1 & Hc1 & Hl1 & _).
      apply Hw; assumption.
    - intros Hoth. rewrite (Ho Hoth). apply other_turn, Hoth. }
  intros c. destruct (G (initial p t a)) as (Hp & Hw & Ho).
  split; [exact Hp|]. cbn [initial platform] in Hw, Ho.
  destruct (String.eqb p "win32") eqn:E.
  - destruct Hw as (Hr & Hc & Hl); try reflexivity.
    split; [apply registered_empty, Hr|]. split; assumption.
  - apply Ho. reflexivity.
Qed.

(** X11 : on win32 the IPC path is dead. On a win32 controller no sequence
    of registrations, "set-window-draggable" messages and close
    notifications ever calls [setBounds] or [onDragEnd], or throws: windows
    registered there are moved by the hooks only. *)
Theorem win32_ignores_requests
    (t : nat) (a : App) (es : list (nat * Event)) :
  calls (play es (initial "win32" t a)) = [] /\
  threw (play es (initial "win32" t a)) = false.
Proof.
  assert (G : forall (c0 : @WindowDrag App),
             String.eqb (platform c0) "win32" = true ->
             references c0 = ∅ -> objects c0 = [] -> closures c0 = [] ->
             closedListeners c0 = ∅ ->
             calls (play es c0) = [] /\ threw (play es c0) = false).
  { induction es as [|[g e] es IH]; intros c0 Hwin Hr Hob Hc Hl; [cbn; auto|].
    cbn [play calls threw].
    destruct (win32_turn g e c0 Hwin Hr Hob Hc Hl)
      as (Hr1 & Ho1 & Hc1 & Hl1 & Hcalls & Hthrew).
    destruct (IH (after (turn g e c0))) as (Hcalls2 & Hthrew2);
      try assumption.
    { rewrite platform_turn. exact Hwin. }
    rewrite Hcalls, Hcalls2, Hthrew, Hthrew2. auto. }
  apply G; reflexivity.
Qed.

Lemma end_same n (ds ds' : list Debounced) :
  same_functions ds ds' ->
  forall fn, calls_in_the_end n ds' fn = calls_in_the_end n ds fn.
Proof.
  intros [Hlen Hsame]. induction n as [|n IH]; intros fn;
    destruct fn as [cb|j]; cbn [calls_in_the_end]; try reflexivity.
  destruct (ds !! j) as [d|] eqn:Ed.
  - destruct (Hsame j d Ed) as (d' & -> & -> & _). apply IH.
  - apply lookup_ge_None in Ed. rewrite lookup_ge_None_2 by lia. reflexivity.
Qed.

Lemma end_extend n (ds xs : list Debounced) :
  forall n' fn cb,
    calls_in_the_end n ds fn = Some cb -> n <= n' ->
    calls_in_the_end n' (ds ++ xs) fn = Some cb.
Proof.
  induction n as [|n IH]; intros n' fn cb H Hle;
    destruct fn as [k|j]; cbn [calls_in_the_end] in H;
    try discriminate; try (destruct n'; exact H).
  destruct n' as [|n']; [lia|]. cbn [calls_in_the_end].
  destruct (ds !! j) as [d|] eqn:Ed; [|discriminate].
  rewrite (lookup_app_l_Some _ _ _ _ Ed). apply IH; [exact H|lia].
Qed.

Lemma same_functions_back (ds ds' : list Debounced) i d' :
  same_functions ds ds' -> ds' !! i = Some d' ->
  exists d, ds !! i = Some d /\ original d' = original d /\ wait d' = wait d.
Proof.
  intros [Hlen Hsame] Hd'.
  assert (Hlt : i < length ds) by (apply lookup_lt_Some in Hd'; lia).
  destruct (lookup_lt_is_Some_2 ds i Hlt) as [d Hd].
  destruct (Hsame i d Hd) as (d'' & Hd'' & Ho & Hw).
  exists d. assert (d'' = d') by congruence. subst d''. auto.
Qed.

(** A change of timers keeps the registry and the stores well-formed. *)
Lemma well_formed_timers (c c' : @WindowDrag App) :
  references c' = references c -> objects c' = objects c ->
  closedListeners c' = closedListeners c ->
  same_functions (closures c) (closures c') ->
  well_formed c -> well_formed c'.
Proof.
  intros Hr Ho Hl Hs (W1 & W2 & W3). pose proof Hs as [Hlen _].
  split; [|split].
  - rewrite Hr, Ho, Hl. exact W1.
  - intros object m Hm. rewrite Ho in Hm. destruct (W2 object m Hm) as [Hlt Hend].
    split; [lia|]. rewrite Hlen, (end_same _ _ _ Hs). exact Hend.
  - intros i d' Hd'. destruct (same_functions_back _ _ i d' Hs Hd') as (d & Hd & Hor & Hw).
    destruct (W3 i d Hd) as [Hwait Horig]. rewrite Hor, Hw. auto.
Qed.

Lemma well_formed_advance t (c : @WindowDrag App) :
  well_formed c -> well_formed (after (advance t c)).
Proof.
  apply well_formed_timers; try reflexivity. apply advance_same.
Qed.

(** Handing in an object (off win32) keeps them well-formed. *)
Lemma well_formed_handed w options (c : @WindowDrag App) :
  well_formed c -> well_formed (setWindowDraggable w options c).
Proof.
  intros (W1 & W2 & W3). unfold setWindowDraggable.
  destruct (String.eqb (platform c) "win32").
  { destruct options as [o|object]; [|destruct (objects c !! object)];
      (split; [|split]); assumption. }
  assert (Hclosures : forall fn i d,
            (closures c ++ [debounce fn DEBOUNCE_WAIT]) !! i = Some d ->
            match fn with Caller _ => True | Closure j => j < length (closures c) end ->
            wait d = DEBOUNCE_WAIT /\
            match original d with Caller _ => True | Closure j => j < i end).
  { intros fn i d Hd Hfn. apply lookup_app_Some in Hd as [Hd|[Hge Hd]].
    - exact (W3 i d Hd).
    - destruct (i - length (closures c)) as [|k] eqn:Ek; [|destruct k; discriminate].
      injection Hd as <-. cbn. split; [reflexivity|].
      destruct fn as [cb|j]; [exact I|lia]. }
  assert (Hold : forall fn object m,
            objects c !! object = Some m ->
            debounced m < length (closures c ++ [debounce fn DEBOUNCE_WAIT]) /\
            calls_in_the_end (length (closures c ++ [debounce fn DEBOUNCE_WAIT]))
              (closures c ++ [debounce fn DEBOUNCE_WAIT]) (Closure (debounced m)) =
              Some (onDragEnd (metadata m))).
  { intros fn object m Hm. destruct (W2 object m Hm) as [Hlt Hend].
    rewrite length_app. cbn [length]. split; [lia|].
    apply (end_extend (length (closures c))); [exact Hend|lia]. }
  destruct options as [o|object].
  - split; [|split]; cbn [references objects closures closedListeners].
    + intros w' object' Hw'. destruct (decide (w = w')) as [->|Hne].
      * rewrite lookup_insert_eq in Hw'. injection Hw' as <-.
        split; [apply elem_of_union_l, elem_of_singleton; reflexivity|]. rewrite lookup_app_r by lia.
        rewrite Nat.sub_diag. eexists. reflexivity.
      * rewrite lookup_insert_ne in Hw' by exact Hne.
        destruct (W1 w' object' Hw') as [Hl [m Hm]].
        split; [apply elem_of_union_r, Hl|]. exists m. apply lookup_app_l_Some, Hm.
    + intros object' m Hm. apply lookup_app_Some in Hm as [Hm|[Hge Hm]].
      * exact (Hold _ object' m Hm).
      * destruct (object' - length (objects c)) as [|k] eqn:Ek;
          [|destruct k; discriminate].
        injection Hm as <-. cbn [debounced metadata].
        rewrite length_app. cbn [length]. split; [lia|].
        replace (length (closures c) + 1) with (S (length (closures c))) by lia.
        cbn [calls_in_the_end].
        rewrite lookup_app_r by lia. rewrite Nat.sub_diag. cbn.
        destruct (length (closures c)); reflexivity.
    + intros i d Hd. exact (Hclosures _ i d Hd I).
  - destruct (objects c !! object) as [m0|] eqn:E0; [|split; [|split]; assumption].
    destruct (W2 object m0 E0) as [Hlt0 Hend0].
    split; [|split]; cbn [references objects closures closedListeners].
    + intros w' object' Hw'. destruct (decide (w = w')) as [->|Hne].
      * rewrite lookup_insert_eq in Hw'. injection Hw' as <-.
        split; [apply elem_of_union_l, elem_of_singleton; reflexivity|].
        rewrite list_lookup_insert_eq by (eapply lookup_lt_Some; eassumption).
        eexists. reflexivity.
      * rewrite lookup_insert_ne in Hw' by exact Hne.
        destruct (W1 w' object' Hw') as [Hl [m Hm]].
        split; [apply elem_of_union_r, Hl|].
        destruct (decide (object = object')) as [->|Hno].
        -- rewrite list_lookup_insert_eq by (eapply lookup_lt_Some; eassumption).
           eexists. reflexivity.
        -- rewrite list_lookup_insert_ne by exact Hno. exists m. exact Hm.
    + intros object' m Hm. destruct (decide (object = object')) as [->|Hno].
      * rewrite list_lookup_insert_eq in Hm by (eapply lookup_lt_Some; eassumption).
        injection Hm as <-. cbn [debounced metadata].
        rewrite length_app. cbn [length]. split; [lia|].
        replace (length (closures c) + 1) with (S (length (closures c))) by lia.
        cbn [calls_in_the_end].
        rewrite lookup_app_r by lia. rewrite Nat.sub_diag. cbn [lookup list_lookup debounce original].
        apply (end_extend (length (closures c))); [exact Hend0|lia].
      * rewrite list_lookup_insert_ne in Hm by exact Hno.
        exact (Hold _ object' m Hm).
    + intros i d Hd. exact (Hclosures _ i d Hd Hlt0).
Qed.

Lemma well_formed_dispatch e (c : @WindowDrag App) :
  well_formed c -> well_formed (after (dispatch e c)).
Proof.
  intros H. destruct e as [sender position|w|w opts|w object|a|];
    cbn [dispatch after done]; try exact H.
  - unfold on_set_window_draggable.
    destruct sender as [w|]; [|exact H].
    destruct (registeredWindows c !! w) as [m|]; [|exact H].
    destruct position as [q|]; [|exact H].
    cbn [after done]. revert H.
    apply well_formed_timers; try reflexivity.
    apply same_functions_invoke.
  - unfold on_closed. destruct (decide _); [|exact H].
    destruct H as (W1 & W2 & W3). split; [|split]; try assumption.
    intros w' object' Hw'. cbn in Hw'.
    apply lookup_delete_Some in Hw' as [_ Hw']. exact (W1 w' object' Hw').
  - apply well_formed_handed, H.
  - apply well_formed_handed, H.
Qed.

(** X12 : the registry stays well-formed. After any sequence of
    registrations (of new objects and of objects handed in before),
    messages, close notifications and waits: every registered window has its
    "closed" listener and its options object; the closure in the [onDragEnd]
    member of an object is in the closure store and, through the closures
    wrapped in one another by repeated registration, calls in the end the
    [onDragEnd] the caller gave that object; and every closure waits 300 ms
    and wraps a caller's function or a closure made before it. *)
Theorem registry_stays_well_formed
    (p : string) (t : nat) (a : App) (es : list (nat * Event)) :
  well_formed (after (play es (initial p t a))).
Proof.
  assert (G : forall (c0 : @WindowDrag App),
             well_formed c0 -> well_formed (after (play es c0))).
  { induction es as [|[g e] es IH]; intros c0 H; [exact H|].
    cbn [play after]. apply IH. unfold turn. cbn [after].
    apply well_formed_dispatch, well_formed_advance, H. }
  apply G. split; [|split].
  - intros w object H. cbn in H. rewrite lookup_empty in H. discriminate.
  - intros object m H. cbn in H. discriminate.
  - intros i d H. cbn in H. discriminate.
Qed.

End ControllerFacts.

(** * The playback controls *)

Lemma one_is_not_zero : one <> zero.
Proof. intros H. apply (f_equal Qcanon.this) in H. discriminate. Qed.

Lemma volume_click_differs (volume : number) (tmpVolumeRef : option number) :
  requested (VolumeBtn_onClick volume tmpVolumeRef) <> volume.
Proof.
  unfold VolumeBtn_onClick. cbn [requested].
  pose proof one_is_not_zero.
  destruct tmpVolumeRef as [u|]; repeat case_decide; congruence.
Qed.

(** X13 : a click on the volume button always asks for another volume. The
    value handed to [setVolume] differs from the current volume, and the
    current volume is what the ref holds afterwards. With nothing
    remembered, or the current volume remembered, the click mutes a sounding
    player and sets a muted one to full volume; with another volume
    remembered it asks for that one, muted or not. *)
Theorem volume_click_changes_volume (volume : number) (tmpVolumeRef : option number) :
  let c := VolumeBtn_onClick volume tmpVolumeRef in
  requested c <> volume /\
  remembered c = Some volume /\
  (tmpVolumeRef = None \/ tmpVolumeRef = Some volume ->
   requested c = if decide (volume = zero) then one else zero) /\
  (forall u, tmpVolumeRef = Some u -> u <> volume -> requested c = u).
Proof.
  split; [apply volume_click_differs|]. split; [reflexivity|].
  unfold VolumeBtn_onClick. cbn [requested].
  split.
  - intros [->| ->]; repeat case_decide; congruence.
  - intros u -> Hne. rewrite decide_False by exact Hne. reflexivity.
Qed.

(** X14 : two clicks on the volume button bring the volume back. If the
    player takes the volume each click asks for, the second click asks for
    the volume there was before the first, whatever the ref held; from then
    on the clicks alternate between the two volumes. *)
Theorem volume_double_click (volume : number) (tmpVolumeRef : option number) :
  let c1 := VolumeBtn_onClick volume tmpVolumeRef in
  let c2 := VolumeBtn_onClick (requested c1) (remembered c1) in
  let c3 := VolumeBtn_onClick (requested c2) (remembered c2) in
  requested c2 = volume /\ requested c3 = requested c1.
Proof.
  intros c1 c2 c3.
  pose proof (volume_click_differs volume tmpVolumeRef) as Hne. fold c1 in Hne.
  assert (H2 : requested c2 = volume).
  { subst c2. change (remembered c1) with (Some volume).
    unfold VolumeBtn_onClick at 1. cbn [requested].
    rewrite decide_False by congruence. reflexivity. }
  split; [exact H2|].
  subst c3. rewrite H2. change (remembered c2) with (Some (requested c1)).
  unfold VolumeBtn_onClick at 1. cbn [requested].
  rewrite decide_False by exact Hne. reflexivity.
Qed.

(** X15 : two clicks on the speed button bring the speed back. If the
    player takes the speed each click asks for, the second click asks for
    the speed there was before the first. A click asks for the speed the
    player already has only at speed 1, with nothing or 1 remembered. *)
Theorem speed_double_click (speed : number) (tmpSpeedRef : option number) :
  let c1 := SpeedBtn_onClick speed tmpSpeedRef in
  let c2 := SpeedBtn_onClick (requested c1) (remembered c1) in
  requested c2 = speed /\
  remembered c1 = Some speed /\
  (requested c1 = speed <->
   speed = one /\ (tmpSpeedRef = None \/ tmpSpeedRef = Some one)).
Proof.
  unfold SpeedBtn_onClick. cbn [requested remembered].
  destruct tmpSpeedRef as [u|]; repeat case_decide; subst;
    repeat split; try reflexivity; try congruence; try tauto;
    intuition congruence.
Qed.

(** * The further properties at concrete inputs *)

(** A move with the button up, a release, and a move whose buffers are
    empty (on which the hook throws). *)
Lemma no_button_no_effect_witness :
  calls (run 1 sample_options
           [free_move (70, 60)%Z; button_up;
            Message (mkMessage WM_MOUSEMOVE [] [])]
           (registered sample_options sample_host)) = [] /\
  bounds (host (after (run 1 sample_options
                         [free_move (70, 60)%Z; button_up;
                          Message (mkMessage WM_MOUSEMOVE [] [])]
                         (registered sample_options sample_host)))) =
    Rectangle.mk 100 100 200 300.
Proof.
  pose proof (no_button_no_effect 1 sample_options sample_host
                [free_move (70, 60)%Z; button_up;
                 Message (mkMessage WM_MOUSEMOVE [] [])]
                eq_refl) as (Hcalls & Hbounds & _).
  split; [exact Hcalls | exact Hbounds].
Defined.

(** The options object of window 1 is handed in again, for window 2. *)
Lemma register_then_request_witness :
  registeredWindows (setWindowDraggable 2 (Reference 0) sample_controller) !! 1 =
    Some (mkManaged sample_options_sized 1) /\
  closures (setWindowDraggable 2 (Reference 0) sample_controller) =
    [debounce (Caller 7) 300; debounce (Closure 0) 300] /\
  calls (on_set_window_draggable (Some 2) (Some (IPoint.mk 10 20))
           (setWindowDraggable 2 (Reference 0) sample_controller)) =
    [SetBounds 2 (Rectangle.mk 10 20 480 640)].
Proof.
  assert (Hp : String.eqb (platform sample_controller) "win32" = false)
    by (vm_compute; reflexivity).
  assert (Hh : handed (Reference 0) sample_controller =
               Some (0, sample_options_sized, Closure 0))
    by (vm_compute; reflexivity).
  pose proof (register_then_request sample_controller 2 1 (Reference 0)
                0 sample_options_sized (Closure 0) (IPoint.mk 10 20) Hp Hh)
    as (_ & Hclosures & Hcalls & _ & Hshared).
  split; [|split].
  - apply Hshared. vm_compute. reflexivity.
  - etransitivity; [exact Hclosures|]. vm_compute. reflexivity.
  - etransitivity; [exact Hcalls|]. vm_compute. reflexivity.
Defined.

(** An object registered twice wraps a closure in a closure: the caller's
    function is called 600 ms after the message, not 300. *)
Example reused_object_nests :
  drag_ends
    (calls (play [(0, Ipc (Some 1) (Some (IPoint.mk 10 20))); (599, Idle)]
              sample_nested)) = [] /\
  drag_ends
    (calls (play [(0, Ipc (Some 1) (Some (IPoint.mk 10 20))); (600, Idle)]
              sample_nested)) = [DragEnd 7 (Some (IPoint.mk 10 20))].
Proof. split; vm_compute; reflexivity. Qed.

(** Two windows registered with one object share its closure: their
    messages, 100 ms apart, collapse into one call. *)
Example shared_object_shares_closure :
  drag_ends
    (calls (play [(0, Ipc (Some 1) (Some (IPoint.mk 10 20)));
                  (100, Ipc (Some 2) (Some (IPoint.mk 30 40)));
                  (1000, Idle)]
              sample_shared)) = [DragEnd 7 (Some (IPoint.mk 30 40))].
Proof. vm_compute. reflexivity. Qed.
